(** * squidpy.im.segment: label reconciliation, backends and segment crops

    A shallow embedding of [src/squidpy/im/segment.py] and the properties of
    its tiled segmentation: the per-crop renumbering of labels inside
    [segment], the wiring of the watershed and blob backends, the dispatch on
    the backend selector, and [segment_crops]. *)

From Stdlib Require Import ZArith QArith Lia.
From stdpp Require Import base option list gmap sets strings sorting.

Open Scope Z_scope.

(** ** Exceptions and results *)

(** The exceptions the module raises itself, and [External] for whatever an
    external routine (skimage, scipy, a model, the image container) raises. *)
Inductive exn :=
  | ValueError (msg : string)
  | NotImplementedError (arg : string)
  | AssertionError (msg : string)
  | IndexError (msg : string)
  | KeyError (key : string)
  | External (what : string).

Inductive result (A : Type) :=
  | Ok (a : A)
  | Raise (e : exn).
Arguments Ok {A} a.
Arguments Raise {A} e.

#[export] Instance result_ret : MRet result := λ A a, Ok a.
#[export] Instance result_bind : MBind result := λ A B f r,
  match r with
  | Ok a => f a
  | Raise e => Raise e
  end.

(** ** NumPy arrays

    Arrays are written as rows of elements. The elementwise operations the
    module uses ([x > 0], [x + c], [arr >= thresh], [1 - mask]) act the same
    way on every rank. *)
Abbreviation ndarray A := (list (list A)) (only parsing).

Definition ravel {A} (a : ndarray A) : list A := mjoin a.

(** [a[r, c]] *)
Definition item {A} (a : ndarray A) (r c : nat) : option A :=
  row ← a !! r; row !! c.

Definition elementwise {A B} (f : A → B) (a : ndarray A) : ndarray B :=
  (λ row : list A, f <$> row) <$> a.

(** [np.max(x)]: raises [ValueError] on a zero-size array. *)
Definition np_max (x : ndarray Z) : result Z :=
  match ravel x with
  | [] => Raise (ValueError "zero-size array to reduction operation maximum which has no identity")
  | v :: vs => Ok (foldr Z.max v vs)
  end.

(** *** Integer dtypes

    A label array has a fixed-width integer dtype, chosen by the backend.
    [uint64] is left out: NumPy adds it to a signed integer in floating
    point. *)
Inductive dtype := int8 | int16 | int32 | int64 | uint8 | uint16 | uint32.

Definition bits (dt : dtype) : Z :=
  match dt with
  | int8 | uint8 => 8
  | int16 | uint16 => 16
  | int32 | uint32 => 32
  | int64 => 64
  end.

Definition signed (dt : dtype) : bool :=
  match dt with
  | int8 | int16 | int32 | int64 => true
  | uint8 | uint16 | uint32 => false
  end.

Definition dtype_min (dt : dtype) : Z :=
  if signed dt then - 2 ^ (bits dt - 1) else 0.

Definition dtype_max (dt : dtype) : Z :=
  if signed dt then 2 ^ (bits dt - 1) - 1 else 2 ^ bits dt - 1.

(** The value a dtype stores for an integer: the integer modulo
    [2 ^ bits], taken in the dtype's range. Integer additions and integer
    casts of NumPy wrap around in this way. *)
Definition cast (dt : dtype) (z : Z) : Z :=
  (z - dtype_min dt) mod 2 ^ bits dt + dtype_min dt.

(** [np.promote_types] on these dtypes: the wider of two dtypes of the same
    signedness; for a signed and an unsigned one, the signed one if it is
    wider, and else the signed dtype of twice the unsigned width. *)
Definition promote_types (a b : dtype) : dtype :=
  let wider (a b : dtype) := if bits a <? bits b then b else a in
  let above (u : dtype) :=
    match u with
    | uint8 => int16
    | uint16 => int32
    | uint32 => int64
    | other => other
    end in
  match signed a, signed b with
  | true, true | false, false => wider a b
  | true, false => wider a (above b)
  | false, true => wider (above a) b
  end.

(** The two sets of rules by which NumPy types the sum of a Python int and a
    NumPy scalar: up to NumPy 1.x the Python int counts as a 64-bit integer
    ([legacy]); from NumPy 2 on it takes the dtype of the other operand
    ([nep50]). *)
Inductive promotion := legacy | nep50.
Existing Class promotion.

(** [x[x > 0] = x[x > 0] + c] on an array of dtype [dt]: the masked in-place
    addition. Both masks are taken before the assignment; the sums are
    assigned into the array itself, which stores them in its own dtype,
    whatever the dtype of [c] and of the sum. *)
Definition add_where_positive (dt : dtype) (c : Z) (x : ndarray Z) : ndarray Z :=
  elementwise (λ v, if bool_decide (0 < v) then cast dt (v + c) else v) x.

(** [xr.DataArray(values, dims=...)] *)
Record DataArray := mkDataArray {
  values : list (ndarray Z);
  dims : list string
}.

(** ** The reconciliation pass of [segment] (lines 248-254) *)

Abbreviation LabelArray := (list (list Z)) (only parsing).

(** An integer array as a backend returns it: its dtype, its number of axes
    and its elements. The elements are written as rows: for two axes they are
    the rows of the array, for any other number of axes the array reshaped to
    rows along its last axis. [mkLabels dt n rows] is the array of the values
    of [rows] stored in [dt], so its elements are read through [cast]. *)
Record Labels := mkLabels {
  dtype_of : dtype;
  ndim : nat;
  entries : list (list Z)
}.

Definition pixels (x : Labels) : LabelArray :=
  elementwise (cast (dtype_of x)) (entries x).

(** The variable [counter]: the Python int [0] at first (no dtype), a NumPy
    scalar of some dtype from the first [counter += num_segments] on. *)
Record Counter := mkCounter {
  counter_dtype : option dtype;
  counter_value : Z
}.

(** The dtype of [counter + num_segments] for a [num_segments] of dtype
    [dt]. *)
Definition scalar_add_type `{P : promotion} (t : option dtype) (dt : dtype) : dtype :=
  match t with
  | Some t => promote_types t dt
  | None =>
      match P with
      | legacy => promote_types int64 dt
      | nep50 => dt
      end
  end.

(** [counter += num_segments]: the sum is a NumPy scalar and wraps around in
    its dtype. *)
Definition add_to_counter `{P : promotion}
    (counter : Counter) (dt : dtype) (num_segments : Z) : Counter :=
  let t := scalar_add_type (counter_dtype counter) dt in
  mkCounter (Some t) (cast t (counter_value counter + num_segments)).

(** One turn of the loop body. [crop_new] is another name for [x];
    [num_segments] is read before the masked addition (line 251, which
    raises on a zero-size array), the crop is rewritten in place with the
    current [counter] (line 252), and the counter grows by [num_segments]
    (line 253). Line 254 indexes the rewritten crop with
    [np.newaxis, :, :] and names the three axes [mask, y, x]: on an array of
    fewer than two axes the index raises [IndexError], on an array of more
    than two axes the index returns more than three axes and [xr.DataArray]
    raises [ValueError]; an array of two axes becomes the single plane of
    the new array. The arrays of the list are distinct objects, one per
    backend call of line 244, so the in-place update of one crop does not
    reach another and the loop is written on values. *)
Definition reconcile_body `{P : promotion} (counter : Counter) (x : Labels)
  : result (DataArray * Counter) :=
  num_segments ← np_max (pixels x);
  let crop_new := add_where_positive (dtype_of x) (counter_value counter) (pixels x) in
  let counter := add_to_counter counter (dtype_of x) num_segments in
  match ndim x with
  | 2%nat => Ok (mkDataArray [crop_new] ["mask"; "y"; "x"], counter)
  | 0%nat | 1%nat => Raise (IndexError "too many indices for array")
  | _ => Raise (ValueError "different number of dimensions on data and dims")
  end.

(** [for i, x in enumerate(crops): ...; crops[i] = ...] started with the
    given counter; returns the rewritten list and the final counter. *)
Fixpoint reconcile_from `{P : promotion} (counter : Counter) (crops : list Labels)
  : result (list DataArray * Counter) :=
  match crops with
  | [] => Ok ([], counter)
  | x :: rest =>
      '(d, counter') ← reconcile_body counter x;
      '(ds, final) ← reconcile_from counter' rest;
      Ok (d :: ds, final)
  end.

(** [counter = 0] *)
Definition python_int (z : Z) : Counter := mkCounter None z.

(** [counter = 0] followed by the loop; returns the rewritten list and the
    final value of the counter. *)
Definition reconcile `{P : promotion} (crops : list Labels)
  : result (list DataArray * Z) :=
  '(out, counter) ← reconcile_from (python_int 0) crops;
  Ok (out, counter_value counter).

(** The label array held by a reconciled crop: the single plane under the
    new leading axis. *)
Definition labels (d : DataArray) : LabelArray :=
  match values d with
  | [plane] => plane
  | _ => []
  end.



(** The set of all values of an array. *)
Definition label_set (x : LabelArray) : gset Z := list_to_set (ravel x).

Definition has_pixel (x : Labels) : Prop := ravel (pixels x) ≠ [].

Definition two_dimensional (x : Labels) : Prop := ndim x = 2%nat.




(** The maximum of an array as a plain integer (0 for a zero-size array). *)
Definition max_of (x : LabelArray) : Z :=
  match np_max x with
  | Ok m => m
  | Raise _ => 0
  end.



(** Proof devices: the rewritten crop as a [DataArray], the loop's output
    and counter written without the error plumbing, and the same with the
    additions taken in the integers. *)
Definition wrap (x : LabelArray) : DataArray :=
  mkDataArray [x] ["mask"; "y"; "x"].

Definition next_counter `{P : promotion} (c : Counter) (x : Labels) : Counter :=
  add_to_counter c (dtype_of x) (max_of (pixels x)).

Fixpoint rewritten `{P : promotion} (c : Counter) (crops : list Labels)
  : list DataArray :=
  match crops with
  | [] => []
  | x :: rest =>
      wrap (add_where_positive (dtype_of x) (counter_value c) (pixels x))
      :: rewritten (next_counter c x) rest
  end.

Definition final_counter `{P : promotion} (c : Counter) (crops : list Labels)
  : Counter :=
  foldl next_counter c crops.

Definition shift_where_positive (c : Z) (x : LabelArray) : LabelArray :=
  elementwise (λ v, if bool_decide (0 < v) then v + c else v) x.

Fixpoint renumber (counter : Z) (crops : list LabelArray) : list DataArray :=
  match crops with
  | [] => []
  | x :: rest =>
      wrap (shift_where_positive counter x) :: renumber (counter + max_of x) rest
  end.

(** The same predicates on plain rows of integers. *)
Definition nonempty (x : LabelArray) : Prop := ravel x ≠ [].



(** ** External routines and their call trace

    The routines of skimage, scipy and tensorflow and the image container are
    not part of this module; they are taken as an interface. A computation
    that may call them returns its result together with the list of external
    calls it made, in order. *)

Inductive Call :=
  | call_blob_log | call_blob_dog | call_blob_doh
  | call_distance_transform_edt | call_peak_local_max | call_ndi_label
  | call_invert | call_watershed
  | call_isinstance | call_model
  | call_crop_equally | call_uncrop_img | call_add_img.

Definition traced (A : Type) : Type := result A * list Call.

#[export] Instance traced_ret : MRet traced := λ A a, (Ok a, []).
#[export] Instance traced_bind : MBind traced := λ A B f m,
  match m with
  | (Ok a, cs) => let '(r, cs') := f a in (r, cs ++ cs')
  | (Raise e, cs) => (Raise e, cs)
  end.

Definition raise {A} (e : exn) : traced A := (Raise e, []).
Definition call {A} (c : Call) (r : result A) : traced A := (r, [c]).
Definition lift {A} (r : result A) : traced A := (r, []).

(** Keyword arguments: a dict from names to Python values. *)
Inductive PyVal :=
  | PyBool (b : bool)
  | PyFloat (q : Q)
  | PyOther (repr : string).

Abbreviation Kwargs := (gmap string PyVal) (only parsing).

Definition truthy (v : PyVal) : bool :=
  match v with
  | PyBool b => b
  | PyFloat q => negb (Qeq_bool q 0)
  | PyOther r => negb (String.eqb r "None")
  end.

(** [model_instance]: nothing, a method name, or a model object. *)
Inductive ModelRef (Model : Type) :=
  | NoModel
  | ModelName (name : string)
  | ModelObject (m : Model).
Arguments NoModel {Model}.
Arguments ModelName {Model} name.
Arguments ModelObject {Model} m.

(** The routines of the three backends. What a backend returns for a crop is
    the array the reconciliation pass rewrites, so the routines that end a
    backend return [Labels]. *)
Class Libraries := {
  Model : Type;
  model_repr : Model → string;
  (* skimage.feature *)
  blob_log : ndarray Q → Kwargs → result Labels;
  blob_dog : ndarray Q → Kwargs → result Labels;
  blob_doh : ndarray Q → Kwargs → result Labels;
  peak_local_max : ndarray Q → ndarray Q → ndarray Z → result (ndarray bool);
  (* scipy.ndimage *)
  distance_transform_edt : ndarray Z → result (ndarray Q);
  ndi_label : ndarray bool → result (ndarray Z * Z);
  (* skimage.util, skimage.segmentation *)
  invert : ndarray Q → result (ndarray Q);
  watershed : ndarray Q → ndarray Z → ndarray Z → result Labels;
  (* tensorflow: [isinstance(model, tf.keras.model.Model)], the lookup of the
     class included, and the call of the model *)
  isinstance_keras_model : ModelRef Model → result bool;
  apply_model : ModelRef Model → ndarray Q → Kwargs → result Labels
}.

(** ** The backends *)

Inductive SegmentationModel `{L : Libraries} :=
  | SegmentationModelBlob (model : ModelRef Model)
  | SegmentationModelWatershed (model : ModelRef Model)
  | SegmentationModelPretrainedTensorflow (model : ModelRef Model).

(** [self.model == name] *)
Definition model_is `{L : Libraries} (model : ModelRef Model) (name : string) : bool :=
  match model with
  | ModelName n => String.eqb n name
  | _ => false
  end.

(** ["%s" % self.model] *)
Definition model_str `{L : Libraries} (model : ModelRef Model) : string :=
  match model with
  | NoModel => "None"
  | ModelName n => n
  | ModelObject m => model_repr m
  end.

(** [SegmentationModelBlob._segment] (lines 97-108). *)
Definition SegmentationModelBlob_segment `{L : Libraries}
    (model : ModelRef Model) (img : ndarray Q) (invert : bool) (kwargs : Kwargs)
  : traced Labels :=
  let img := if invert then elementwise (λ v, 0 - v)%Q img else img in
  if model_is model "log" then call call_blob_log (blob_log img kwargs)
  else if model_is model "dog" then call call_blob_dog (blob_dog img kwargs)
  else if model_is model "doh" then call call_blob_doh (blob_doh img kwargs)
  else raise (ValueError ("did not recognize self.model " +:+ model_str model)).

Definition Qlt_bool (a b : Q) : bool := negb (Qle_bool b a).

(** [1 - mask] on a boolean array. *)
Definition one_minus (mask : ndarray bool) : ndarray Z :=
  elementwise (λ b : bool, 1 - Z.b2z b) mask.

(** [np.ones((n, m))] *)
Definition np_ones (n m : nat) : ndarray Q := replicate n (replicate m 1%Q).

(** [SegmentationModelWatershed._segment] (lines 142-151). *)
Definition SegmentationModelWatershed_segment `{L : Libraries}
    (arr : ndarray Q) (thresh : Q) (geq : bool) : traced Labels :=
  let mask :=
    if geq then elementwise (λ v, Qle_bool thresh v) arr
    else elementwise (λ v, Qlt_bool v thresh) arr in
  distance ← call call_distance_transform_edt
                  (distance_transform_edt (one_minus mask));
  local_maxi ← call call_peak_local_max
                    (peak_local_max distance (np_ones 5 5) (one_minus mask));
  labelled ← call call_ndi_label (ndi_label local_maxi);
  let markers := labelled.1 in
  inverted ← call call_invert (invert arr);
  call call_watershed (watershed inverted markers (one_minus mask)).

(** [SegmentationModelPretrainedTensorflow.__init__] (lines 158-163). *)
Definition SegmentationModelPretrainedTensorflow_init `{L : Libraries}
    (model : ModelRef Model) : traced SegmentationModel :=
  ok ← call call_isinstance (isinstance_keras_model model);
  if ok : bool then mret (SegmentationModelPretrainedTensorflow model)
  else raise (AssertionError "Model should be a `tensorflow.keras.model` instance.").

(** [SegmentationModelPretrainedTensorflow._segment] (line 181). *)
Definition SegmentationModelPretrainedTensorflow_segment `{L : Libraries}
    (model : ModelRef Model) (arr : ndarray Q) (kwargs : Kwargs)
  : traced Labels :=
  call call_model (apply_model model arr kwargs).

(** A threshold passed by keyword has to compare with the pixels. *)
Definition as_number (v : PyVal) : result Q :=
  match v with
  | PyFloat q => Ok q
  | PyBool b => Ok (inject_Z (Z.b2z b))
  | PyOther r => Raise (External "TypeError")
  end.

(** [SegmentationModel.segment] (line 71): the call [self._segment(img,
    **kwargs)], with the keywords bound to the named parameters of the
    variant's [_segment] and their defaults. *)
Definition SegmentationModel_segment `{L : Libraries}
    (self : SegmentationModel) (img : ndarray Q) (kwargs : Kwargs)
  : traced Labels :=
  match self with
  | SegmentationModelBlob model =>
      let invert := default (PyBool true) (kwargs !! "invert") in
      SegmentationModelBlob_segment model img (truthy invert) (delete "invert" kwargs)
  | SegmentationModelWatershed _ =>
      let thresh := default (PyFloat (1 # 2)) (kwargs !! "thresh") in
      let geq := default (PyBool true) (kwargs !! "geq") in
      thresh ← lift (as_number thresh);
      SegmentationModelWatershed_segment img thresh (truthy geq)
  | SegmentationModelPretrainedTensorflow model =>
      SegmentationModelPretrainedTensorflow_segment model img kwargs
  end.

(** ** The backend selector *)

(** Modelled from the spec: the declaration of [SegmentationBackend]
    ([squidpy.constants._constants]) is not part of this module. The source
    names its members [BLOB], [WATERSHED] and [TENSORFLOW] and reads the
    string of a member with [.s]; [OTHER] stands for any further member the
    declaration may have. Calling the enumeration on a member returns it, on
    the value of a member returns that member, and on anything else raises
    the enumeration's own [ValueError], as Python enumerations do. *)
Inductive SegmentationBackend :=
  | BLOB
  | WATERSHED
  | TENSORFLOW
  | OTHER (name : string).

#[export] Instance SegmentationBackend_eq_dec : EqDecision SegmentationBackend.
Proof. solve_decision. Defined.

Class BackendDecl := {
  s : SegmentationBackend → string;
  members : list SegmentationBackend;
  invalid_option : string → string
}.

(** [model_group : Union[str, SegmentationBackend]] *)
Inductive Selector :=
  | ByValue (v : string)
  | ByMember (m : SegmentationBackend).

Definition SegmentationBackend_call `{B : BackendDecl} (model_group : Selector)
  : result SegmentationBackend :=
  match model_group with
  | ByMember m => Ok m
  | ByValue v =>
      match list_find (λ m, s m = v) members with
      | Some (_, m) => Ok m
      | None => Raise (ValueError (invalid_option v))
      end
  end.

(** Modelled from the spec: an enumeration with exactly the three named
    variants (spec, External interfaces); the strings stand for [BLOB.s],
    [WATERSHED.s] and [TENSORFLOW.s]. *)
Definition three_variants : BackendDecl := {|
  s := λ m, match m with
            | BLOB => "blob"
            | WATERSHED => "watershed"
            | TENSORFLOW => "tensorflow"
            | OTHER n => n
            end;
  members := [BLOB; WATERSHED; TENSORFLOW];
  invalid_option := λ v, "Invalid option " +:+ v +:+ " for SegmentationBackend"
|}.

(** ** The image container *)

(** [slice(0, n)] or a single channel index. *)
Inductive ChannelSel :=
  | ChannelSlice (start stop : Z)
  | ChannelIndex (i : Z).

(** The operations of [ImageContainer], of its crops and of [uncrop_img]
    that the module uses. [crop_center] is taken to return a crop for every
    centre. *)
Class Container := {
  ImageContainer : Type;
  Crop : Type;
  Stitched : Type;
  crop_equally : ImageContainer → option Z → option Z → string
                 → result (list Crop * list Z * list Z);
  crop_center : ImageContainer → Z → Z → option Z → option Z → string → Crop;
  shape : ImageContainer → list Z;
  data : ImageContainer → gmap string (ndarray Z);
  add_img : ImageContainer → Stitched → string → string → result ImageContainer;
  n_channels : Crop → Z;
  isel_channels : Crop → ChannelSel → ndarray Q;
  uncrop_img : list DataArray → list Z → list Z → list Z → string → result Stitched
}.

(** Computations of [segment]: they read and replace the image container and
    trace their external calls. *)
Definition prog `{C : Container} (A : Type) : Type :=
  ImageContainer → traced A * ImageContainer.

#[export] Instance prog_ret `{C : Container} : MRet prog := λ A a img, (mret a, img).
#[export] Instance prog_bind `{C : Container} : MBind prog := λ A B f m img,
  match m img with
  | ((Ok a, cs), img') =>
      let '((r, cs'), img'') := f a img' in ((r, cs ++ cs'), img'')
  | ((Raise e, cs), img') => ((Raise e, cs), img')
  end.

(** A computation that leaves the container alone. *)
Definition pure_step `{C : Container} {A} (m : traced A) : prog A := λ img, (m, img).

(** A read of the container through one of its methods. *)
Definition read_img `{C : Container} {A} (c : Call) (f : ImageContainer → result A)
  : prog A := λ img, (call c (f img), img).

(** [img.add_img(...)]: the container is replaced when the method returns. *)
Definition write_img `{C : Container} (c : Call)
    (f : ImageContainer → result ImageContainer) : prog unit := λ img,
  match f img with
  | Ok img' => (call c (Ok ()), img')
  | Raise e => (call c (Raise e), img)
  end.

(** The list comprehension of line 244: the backend runs on the crops in
    order and the first exception ends it. *)
Fixpoint segment_each `{L : Libraries} `{C : Container}
    (model : SegmentationModel) (sel : ChannelSel) (kwargs : Kwargs)
    (crops : list Crop) : traced (list Labels) :=
  match crops with
  | [] => mret []
  | x :: rest =>
      y ← SegmentationModel_segment model (isel_channels x sel) kwargs;
      ys ← segment_each model sel kwargs rest;
      mret (y :: ys)
  end.

(** The dispatch of lines 233-240: the backend object for a member. *)
Definition make_model `{L : Libraries} `{B : BackendDecl}
    (model_group : SegmentationBackend) (model_instance : ModelRef Model)
  : traced SegmentationModel :=
  match model_group with
  | BLOB => mret (SegmentationModelBlob model_instance)
  | WATERSHED => mret (SegmentationModelWatershed model_instance)
  | TENSORFLOW => SegmentationModelPretrainedTensorflow_init model_instance
  | OTHER _ => raise (NotImplementedError (s model_group))
  end.

(** Line 243: [slice(0, crops[0].channels.shape[0]) if channel_idx is None
    else channel_idx]. *)
Definition channel_slice_of `{C : Container}
    (channel_idx : option Z) (crops : list Crop) : traced ChannelSel :=
  match channel_idx with
  | None =>
      match crops with
      | first :: _ => mret (ChannelSlice 0 (n_channels first))
      | [] => raise (IndexError "list index out of range")
      end
  | Some idx => mret (ChannelIndex idx)
  end.

(** [segment] (lines 230-258). *)
Definition segment `{L : Libraries} `{C : Container} `{B : BackendDecl}
    `{P : promotion} (img_id : string) (model_group : Selector)
    (model_instance : ModelRef Model) (model_kwargs : Kwargs)
    (channel_idx : option Z) (xs ys : option Z) (key_added : option string)
  : prog unit :=
  let channel_id := "mask" in
  model_group ← pure_step (lift (SegmentationBackend_call model_group));
  segmentation_model ← pure_step (make_model model_group model_instance);
  '(crops, xcoord, ycoord) ←
    read_img call_crop_equally (λ img, crop_equally img xs ys img_id);
  channel_slice ← pure_step (channel_slice_of channel_idx crops);
  crops ← pure_step
    (segment_each segmentation_model channel_slice model_kwargs crops);
  '(crops, _) ← pure_step (lift (reconcile crops));
  img_segmented ← read_img call_uncrop_img
    (λ img, uncrop_img crops xcoord ycoord (reverse (shape img)) channel_id);
  let img_id :=
    match key_added with
    | None => "segmented_" +:+ s model_group
    | Some key => key
    end in
  write_img call_add_img (λ img, add_img img img_segmented img_id channel_id).

(** The selector names the member [m]: it is [m] itself or [m]'s value. *)
Definition selects `{B : BackendDecl} (model_group : Selector) (m : SegmentationBackend)
  : Prop :=
  model_group = ByMember m ∨ model_group = ByValue (s m).

(** ** [segment_crops] (lines 285-292)

    The stored label layer is read as rows of pixels: index 0 of [np.where]
    is the row and index 1 the column. The means of index arrays are exact
    rationals (the sums of indices stay far below 2^53). *)

(** [np.unique(a)]: the sorted distinct values. *)
Definition np_unique (a : ndarray Z) : list Z :=
  merge_sort Z.le (remove_dups (ravel a)).

(** [np.sort(list(...))] *)
Definition np_sort (l : list Z) : list Z := merge_sort Z.le l.

(** [np.sort(list(set(np.unique(layer)) - {0}))] *)
Definition segment_ids (layer : ndarray Z) : list Z :=
  np_sort (elements ((list_to_set (np_unique layer) : gset Z) ∖ {[0]})).

(** The columns of a row that hold [i]. *)
Fixpoint row_hits (i : Z) (c : nat) (row : list Z) : list nat :=
  match row with
  | [] => []
  | v :: rest =>
      if bool_decide (v = i) then c :: row_hits i (S c) rest
      else row_hits i (S c) rest
  end.

(** The positions that hold [i], row by row. *)
Fixpoint hits_from (i : Z) (r : nat) (a : ndarray Z) : list (nat * nat) :=
  match a with
  | [] => []
  | row :: rest => ((λ c, (r, c)) <$> row_hits i 0 row) ++ hits_from i (S r) rest
  end.

(** [np.where(layer == i)]: the pair of index arrays. *)
Definition np_where_eq (layer : ndarray Z) (i : Z) : list nat * list nat :=
  let hits := hits_from i 0 layer in (hits.*1, hits.*2).

(** [np.mean] of an index array; [None] is the [nan] of an empty array. *)
Definition np_mean (idx : list nat) : option Q :=
  match idx with
  | [] => None
  | _ => Some (Z.of_nat (sum_list idx) # Pos.of_nat (length idx))
  end.

(** [int(x)] on a float: the integer part, towards zero. *)
Definition py_int (x : option Q) : result Z :=
  match x with
  | None => Raise (ValueError "cannot convert float NaN to integer")
  | Some q => Ok (Z.quot (Qnum q) (Z.pos (Qden q)))
  end.

(** One entry of [segment_centres]. *)
Definition segment_centre (layer : ndarray Z) (i : Z) : option Q * option Q :=
  (np_mean (np_where_eq layer i).1, np_mean (np_where_eq layer i).2).

(** The crop request of the second comprehension for one centre. *)
Definition crop_at `{C : Container} (img : ImageContainer) (img_id : string)
    (xs ys : option Z) (centre : option Q * option Q) : result Crop :=
  x ← py_int centre.1;
  y ← py_int centre.2;
  Ok (crop_center img x y xs ys img_id).

Fixpoint crop_all `{C : Container} (img : ImageContainer) (img_id : string)
    (xs ys : option Z) (centres : list (option Q * option Q))
  : result (list Crop) :=
  match centres with
  | [] => Ok []
  | c :: rest =>
      crop ← crop_at img img_id xs ys c;
      crops ← crop_all img img_id xs ys rest;
      Ok (crop :: crops)
  end.

Definition segment_crops `{C : Container} (img : ImageContainer)
    (img_id segmented_img_id : string) (xs ys : option Z)
  : result (list Crop) :=
  match data img !! segmented_img_id with
  | None => Raise (KeyError segmented_img_id)
  | Some layer =>
      let segment_centres := segment_centre layer <$> segment_ids layer in
      crop_all img img_id xs ys segment_centres
  end.

(** The positions of a layer that hold a label, in the spec's words: a list
    without repetition of exactly the pixels equal to the label. *)
Definition pixels_of (layer : ndarray Z) (i : Z) (pix : list (nat * nat)) : Prop :=
  NoDup pix ∧ ∀ r c, (r, c) ∈ pix ↔ item layer r c = Some i.


(** The external calls a backend can make. *)
Definition backend_call (c : Call) : Prop :=
  c ≠ call_crop_equally ∧ c ≠ call_uncrop_img ∧ c ≠ call_add_img.

(** ** The watershed wiring in the spec's words

    The foreground mask is the thresholded set; the distance transform runs
    over its complement, the background mask; the local maxima are restricted
    to the foreground and the region growing is constrained to the
    foreground. *)
Definition watershed_as_specified `{L : Libraries}
    (arr : ndarray Q) (thresh : Q) (geq : bool) : traced Labels :=
  let foreground : ndarray bool :=
    elementwise (λ v, if geq then Qle_bool thresh v else Qlt_bool v thresh) arr in
  let background := one_minus foreground in
  distance ← call call_distance_transform_edt (distance_transform_edt background);
  local_maxi ← call call_peak_local_max
                    (peak_local_max distance (np_ones 5 5) (elementwise Z.b2z foreground));
  labelled ← call call_ndi_label (ndi_label local_maxi);
  inverted ← call call_invert (invert arr);
  call call_watershed (watershed inverted labelled.1 (elementwise Z.b2z foreground)).

(** The region the source hands to the three routines: 1 on the pixels
    outside the thresholded set, 0 on the set. *)
Definition outside_threshold (arr : ndarray Q) (thresh : Q) (geq : bool)
  : ndarray Z :=
  elementwise (λ v, Z.b2z (if geq then Qlt_bool v thresh else Qle_bool thresh v)) arr.

(** ** Small stand-ins for the collaborators

    Used to run the definitions on concrete inputs. The routines are
    degenerate but keep the shape of their contracts: the distance of a pixel
    is its own mask value, every masked pixel is a peak and its own marker,
    and the region growing labels a pixel only inside its mask. *)
Definition toy_libraries : Libraries := {|
  Model := unit;
  model_repr := λ _, "model";
  blob_log := λ _ _, Ok (mkLabels int32 2 []);
  blob_dog := λ _ _, Ok (mkLabels int32 2 []);
  blob_doh := λ _ _, Ok (mkLabels int32 2 []);
  peak_local_max := λ _ _ labels, Ok (elementwise (λ v, negb (v =? 0)) labels);
  distance_transform_edt := λ a, Ok (elementwise inject_Z a);
  ndi_label := λ b, Ok (elementwise Z.b2z b, 1);
  invert := λ a, Ok (elementwise (λ v, 1 - v)%Q a);
  watershed := λ _ markers mask,
    Ok (mkLabels int32 2
          (zip_with (zip_with (λ m k, if k =? 0 then 0 else m)) markers mask));
  isinstance_keras_model := λ m, Ok (match m with ModelObject _ => true | _ => false end);
  apply_model := λ _ arr _,
    Ok (mkLabels int32 2 (elementwise (λ v, if Qle_bool (1 # 2) v then 1 else 0) arr))
|}.

(** A container that is a dict of layers and tiles an image into the one crop
    that covers it. *)
Definition toy_container : Container := {|
  ImageContainer := gmap string (ndarray Z);
  Crop := Z * Z * ndarray Q;
  Stitched := ndarray Z;
  crop_equally := λ img _ _ img_id,
    match img !! img_id with
    | Some layer => Ok ([(0, 0, elementwise inject_Z layer)], [0], [0])
    | None => Raise (KeyError img_id)
    end;
  crop_center := λ _ x y _ _ _, (x, y, []);
  shape := λ _, [0; 0];
  data := λ img, img;
  add_img := λ img layer img_id _, Ok (<[img_id := layer]> img);
  n_channels := λ _, 1;
  isel_channels := λ crop _, crop.2;
  uncrop_img := λ crops _ _ _ _,
    match crops with
    | [d] => Ok (labels d)
    | _ => Raise (External "uncrop_img")
    end
|}.

(** ** Further stand-ins and vocabulary *)

(** The order in which the watershed backend calls its routines. *)
Definition watershed_order : list Call :=
  [call_distance_transform_edt; call_peak_local_max; call_ndi_label;
   call_invert; call_watershed].

(** Libraries whose region growing fills its whole mask with one segment. *)
Definition filling_libraries : Libraries := {|
  Model := unit;
  model_repr := λ _, "model";
  blob_log := λ _ _, Ok (mkLabels int32 2 []);
  blob_dog := λ _ _, Ok (mkLabels int32 2 []);
  blob_doh := λ _ _, Ok (mkLabels int32 2 []);
  peak_local_max := λ _ _ labels, Ok (elementwise (λ v, negb (v =? 0)) labels);
  distance_transform_edt := λ a, Ok (elementwise inject_Z a);
  ndi_label := λ b, Ok (elementwise Z.b2z b, 1);
  invert := λ a, Ok (elementwise (λ v, 1 - v)%Q a);
  watershed := λ _ _ mask,
    Ok (mkLabels int32 2 (elementwise (λ k, if k =? 0 then 0 else 1) mask));
  isinstance_keras_model := λ m, Ok (match m with ModelObject _ => true | _ => false end);
  apply_model := λ _ arr _,
    Ok (mkLabels int32 2 (elementwise (λ v, if Qle_bool (1 # 2) v then 1 else 0) arr))
|}.

(** Libraries whose model raises on an input without rows. *)
Definition picky_libraries : Libraries := {|
  Model := unit;
  model_repr := λ _, "model";
  blob_log := λ _ _, Ok (mkLabels int32 2 []);
  blob_dog := λ _ _, Ok (mkLabels int32 2 []);
  blob_doh := λ _ _, Ok (mkLabels int32 2 []);
  peak_local_max := λ _ _ labels, Ok (elementwise (λ v, negb (v =? 0)) labels);
  distance_transform_edt := λ a, Ok (elementwise inject_Z a);
  ndi_label := λ b, Ok (elementwise Z.b2z b, 1);
  invert := λ a, Ok (elementwise (λ v, 1 - v)%Q a);
  watershed := λ _ _ mask, Ok (mkLabels int32 2 mask);
  isinstance_keras_model := λ m, Ok (match m with ModelObject _ => true | _ => false end);
  apply_model := λ _ arr _,
    match arr with
    | [] => Raise (External "empty input")
    | _ => Ok (mkLabels int32 2
                 (elementwise (λ v, if Qle_bool (1 # 2) v then 1 else 0) arr))
    end
|}.

(** A container whose tiling returns no crop and whose stitcher refuses an
    empty list. *)
Definition blank_container : Container := {|
  ImageContainer := gmap string (ndarray Z);
  Crop := Z * Z * ndarray Q;
  Stitched := ndarray Z;
  crop_equally := λ _ _ _ _, Ok ([], [], []);
  crop_center := λ _ x y _ _ _, (x, y, []);
  shape := λ _, [0; 0];
  data := λ img, img;
  add_img := λ img layer img_id _, Ok (<[img_id := layer]> img);
  n_channels := λ _, 1;
  isel_channels := λ crop _, crop.2;
  uncrop_img := λ crops _ _ _ _,
    match crops with
    | [d] => Ok (labels d)
    | _ => Raise (External "uncrop_img")
    end
|}.

(** The external calls one backend invocation makes on a crop. *)
Definition backend_trace `{L : Libraries} `{C : Container}
    (model : SegmentationModel) (sel : ChannelSel) (kwargs : Kwargs) (x : Crop)
  : list Call :=
  (SegmentationModel_segment model (isel_channels x sel) kwargs).2.

(** Libraries in which the class [tf.keras.model.Model] cannot be looked up,
    as in TensorFlow, whose [keras] package has [models] and [Model] but no
    [model]: the check of line 162 raises before [isinstance] runs. *)
Definition keras_libraries : Libraries := {|
  Model := unit;
  model_repr := λ _, "model";
  blob_log := λ _ _, Ok (mkLabels int32 2 []);
  blob_dog := λ _ _, Ok (mkLabels int32 2 []);
  blob_doh := λ _ _, Ok (mkLabels int32 2 []);
  peak_local_max := λ _ _ labels, Ok (elementwise (λ v, negb (v =? 0)) labels);
  distance_transform_edt := λ a, Ok (elementwise inject_Z a);
  ndi_label := λ b, Ok (elementwise Z.b2z b, 1);
  invert := λ a, Ok (elementwise (λ v, 1 - v)%Q a);
  watershed := λ _ _ mask, Ok (mkLabels int32 2 mask);
  isinstance_keras_model := λ _, Raise (External "AttributeError");
  apply_model := λ _ arr _,
    Ok (mkLabels int32 2 (elementwise (λ v, if Qle_bool (1 # 2) v then 1 else 0) arr))
|}.

(** Two crops of two rows and two columns, with the labels [{0,1,2}] and
    [{0,1}]. *)
Definition two_crops : list Labels :=
  [ mkLabels int32 2 [[0; 1]; [2; 2]]; mkLabels int32 2 [[0; 1]; [1; 0]] ].

(* ================================================================== *)
(** * Properties *)

(** ** Arrays *)


Lemma item_elementwise {A B} (f : A → B) (a : ndarray A) r c :
  item (elementwise f a) r c = f <$> item a r c.
Proof.
  unfold item, elementwise. rewrite list_lookup_fmap.
  destruct (a !! r) as [row|]; simpl; [|done].
  by rewrite list_lookup_fmap.
Qed.

Lemma item_ravel {A} (a : ndarray A) r c v :
  item a r c = Some v → v ∈ ravel a.
Proof.
  unfold item, ravel. intros H.
  destruct (a !! r) as [row|] eqn:Hr; simpl in H; [|done].
  apply list_elem_of_join. exists row. split.
  - by eapply list_elem_of_lookup_2.
  - by eapply list_elem_of_lookup_2.
Qed.

Lemma elementwise_compose {A B C} (f : A → B) (g : B → C) (a : ndarray A) :
  elementwise g (elementwise f a) = elementwise (g ∘ f) a.
Proof.
  unfold elementwise. rewrite <- list_fmap_compose. apply list_fmap_ext.
  intros _ row _. simpl. by rewrite <- list_fmap_compose.
Qed.

Lemma elementwise_ext {A B} (f g : A → B) (a : ndarray A) :
  (∀ v, f v = g v) → elementwise f a = elementwise g a.
Proof.
  intros Hfg. unfold elementwise. apply list_fmap_ext. intros _ row _.
  apply list_fmap_ext. intros _ v _. apply Hfg.
Qed.



Lemma elementwise_lengths {A B} (f : A → B) (a : ndarray A) :
  length <$> elementwise f a = length <$> a.
Proof.
  unfold elementwise. rewrite <- list_fmap_compose.
  apply list_fmap_ext. intros _ row _. simpl. by rewrite length_fmap.
Qed.

Lemma foldr_max_ge (v : Z) (vs : list Z) :
  v ≤ foldr Z.max v vs ∧ Forall (λ w, w ≤ foldr Z.max v vs) vs.
Proof.
  induction vs as [|w vs [IH1 IH2]]; simpl; [split; [lia|constructor]|].
  split; [lia|]. constructor; [lia|].
  eapply Forall_impl; [exact IH2|]. simpl. intros; lia.
Qed.

Lemma foldr_max_elem (v : Z) (vs : list Z) :
  foldr Z.max v vs ∈ v :: vs.
Proof.
  induction vs as [|w vs IH]; simpl; [by left|].
  destruct (Z.max_spec w (foldr Z.max v vs)) as [[_ ->]|[_ ->]].
  - apply elem_of_cons in IH as [->|IH]; [left|do 2 right]; done.
  - right; left.
Qed.

Lemma np_max_ok (x : LabelArray) :
  nonempty x →
  ∃ m, np_max x = Ok m ∧ m ∈ ravel x ∧ ∀ v, v ∈ ravel x → v ≤ m.
Proof.
  unfold nonempty, np_max. destruct (ravel x) as [|v vs]; [done|]. intros _.
  eexists; split; [done|]. split; [apply foldr_max_elem|].
  intros w Hw. destruct (foldr_max_ge v vs) as [H1 H2].
  apply elem_of_cons in Hw as [->|Hw]; [done|].
  by eapply Forall_forall in H2.
Qed.

Lemma max_of_spec (x : LabelArray) :
  nonempty x →
  np_max x = Ok (max_of x) ∧ max_of x ∈ ravel x ∧ ∀ v, v ∈ ravel x → v ≤ max_of x.
Proof.
  intros H. destruct (np_max_ok x H) as (m & Hm & Hin & Hle).
  unfold max_of. rewrite Hm. done.
Qed.



(** ** Dtypes *)

Lemma dtype_bounds (dt : dtype) :
  dtype_min dt ≤ 0 ∧ 127 ≤ dtype_max dt
  ∧ dtype_max dt - dtype_min dt + 1 = 2 ^ bits dt.
Proof. destruct dt; vm_compute; repeat split; congruence. Qed.

Lemma cast_range (dt : dtype) (z : Z) : dtype_min dt ≤ cast dt z ≤ dtype_max dt.
Proof.
  unfold cast. destruct (dtype_bounds dt) as (_ & _ & Hw).
  assert (0 < 2 ^ bits dt) as Hpos by (destruct dt; done).
  pose proof (Z.mod_pos_bound (z - dtype_min dt) _ Hpos). lia.
Qed.

Lemma cast_id (dt : dtype) (z : Z) :
  dtype_min dt ≤ z ≤ dtype_max dt → cast dt z = z.
Proof.
  intros Hz. unfold cast. destruct (dtype_bounds dt) as (_ & _ & Hw).
  rewrite Z.mod_small by lia. lia.
Qed.

Lemma cast_cast (dt : dtype) (z : Z) : cast dt (cast dt z) = cast dt z.
Proof. apply cast_id, cast_range. Qed.





Lemma item_add_where_positive (dt : dtype) (c : Z) (x : LabelArray) r col :
  item (add_where_positive dt c x) r col =
  (λ v, if bool_decide (0 < v) then cast dt (v + c) else v) <$> item x r col.
Proof. apply item_elementwise. Qed.






(** ** The loop *)

Lemma labels_wrap (x : LabelArray) : labels (wrap x) = x.
Proof. done. Qed.

Lemma reconcile_body_ok `{P : promotion} (c : Counter) (x : Labels) :
  has_pixel x → two_dimensional x →
  reconcile_body c x
  = Ok (wrap (add_where_positive (dtype_of x) (counter_value c) (pixels x)),
        next_counter c x).
Proof.
  intros Hx H2. unfold reconcile_body.
  destruct (max_of_spec (pixels x) Hx) as (-> & _). simpl.
  unfold two_dimensional in H2. by rewrite H2.
Qed.

Lemma reconcile_from_rewritten `{P : promotion} (c : Counter) (crops : list Labels) :
  Forall has_pixel crops → Forall two_dimensional crops →
  reconcile_from c crops = Ok (rewritten c crops, final_counter c crops).
Proof.
  intros Hp. revert c. induction Hp as [|x rest Hx _ IH]; intros c H2; [done|].
  apply Forall_cons in H2 as [Hx2 H2]. simpl.
  rewrite reconcile_body_ok by done. simpl. by rewrite IH.
Qed.

Lemma reconcile_rewritten `{P : promotion} (crops : list Labels) :
  Forall has_pixel crops → Forall two_dimensional crops →
  reconcile crops
  = Ok (rewritten (python_int 0) crops,
        counter_value (final_counter (python_int 0) crops)).
Proof.
  intros Hp H2. unfold reconcile. by rewrite reconcile_from_rewritten.
Qed.

Lemma reconcile_from_app `{P : promotion} (c : Counter) (front back : list Labels) :
  reconcile_from c (front ++ back) =
  '(ds1, c1) ← reconcile_from c front;
  '(ds2, c2) ← reconcile_from c1 back;
  Ok (ds1 ++ ds2, c2).
Proof.
  revert c. induction front as [|x front IH]; intros c; simpl.
  - by destruct (reconcile_from c back) as [[??]|].
  - destruct (reconcile_body c x) as [[d c']|e]; simpl; [|done].
    rewrite IH. destruct (reconcile_from c' front) as [[ds1 c1]|e]; simpl; [|done].
    by destruct (reconcile_from c1 back) as [[??]|].
Qed.

Lemma rewritten_length `{P : promotion} c crops :
  length (rewritten c crops) = length crops.
Proof. revert c; induction crops; intros; simpl; [done|]. by rewrite IHcrops. Qed.


Lemma rewritten_lookup `{P : promotion} (c : Counter) (crops : list Labels) (i : nat) :
  rewritten c crops !! i =
  (λ x, wrap (add_where_positive (dtype_of x)
                (counter_value (final_counter c (take i crops))) (pixels x)))
  <$> crops !! i.
Proof.
  revert c i. induction crops as [|x rest IH]; intros c i; [done|].
  destruct i as [|i]; simpl; [done|]. by rewrite IH.
Qed.






(** *** The loop where no sum leaves its array *)










(** *** The loop in the integers *)



Lemma renumber_take c crops k :
  renumber c (take k crops) = take k (renumber c crops).
Proof.
  revert c k. induction crops as [|x rest IH]; intros c [|k]; simpl; try done.
  by rewrite IH.
Qed.








Lemma label_set_elem (x : LabelArray) (v : Z) : v ∈ label_set x ↔ v ∈ ravel x.
Proof. unfold label_set. by rewrite elem_of_list_to_set. Qed.






(** *** From the integers back to the arrays *)





Lemma has_pixel_two_crops : Forall has_pixel two_crops.
Proof. repeat constructor; discriminate. Qed.

Lemma two_dimensional_two_crops : Forall two_dimensional two_crops.
Proof. by repeat constructor. Qed.




(** [np.max] has no answer on a crop without pixels: the pass raises. *)
Example reconcile_zero_size `{P : promotion} :
  reconcile [ mkLabels int32 2 [[0; 1]]; mkLabels int32 2 [] ]
  = Raise (ValueError "zero-size array to reduction operation maximum which has no identity").
Proof. reflexivity. Qed.

Example reconcile_two_crops `{P : promotion} :
  reconcile two_crops
  = Ok ([ mkDataArray [[[0; 1]; [2; 2]]] ["mask"; "y"; "x"];
          mkDataArray [[[0; 3]; [3; 0]]] ["mask"; "y"; "x"] ], 3).
Proof. destruct P; reflexivity. Qed.

(** The labels wrap around in the dtype of their array: in an 8-bit array
    the label 2 moved up by 255 is stored as 1. *)
Example reconcile_uint8_wraps `{P : promotion} :
  ∃ final,
    reconcile [ mkLabels uint8 2 [[1; 255]]; mkLabels uint8 2 [[2; 0]] ]
    = Ok ([ mkDataArray [[[1; 255]]] ["mask"; "y"; "x"];
            mkDataArray [[[1; 0]]] ["mask"; "y"; "x"] ], final).
Proof. destruct P; eexists; reflexivity. Qed.

(** ** Claims on the reconciliation pass *)







(** C3. On crops with a pixel and two axes the pass returns, and a pixel
    that is 0 before it is 0 after it; more generally a value that is not
    strictly positive is left as it is, so a pixel whose value changed was
    strictly positive. The pass returns on no other crops: [np.max] raises
    on a crop without a pixel (line 251) and line 254 on a crop that has not
    two axes. *)
Theorem reconcile_keeps_background `{P : promotion} (crops : list Labels) :
  Forall has_pixel crops → Forall two_dimensional crops →
  ∃ out final, reconcile crops = Ok (out, final) ∧ length out = length crops ∧
    ∀ i x d r col v, crops !! i = Some x → out !! i = Some d →
      item (pixels x) r col = Some v →
      (v = 0 → item (labels d) r col = Some 0) ∧
      (v ≤ 0 → item (labels d) r col = Some v) ∧
      (item (labels d) r col ≠ Some v → 0 < v).
Proof.
  intros Hp H2. do 2 eexists.
  split; [by apply reconcile_rewritten|].
  split; [apply rewritten_length|].
  intros i x d r col v Hx Hd Hv. rewrite rewritten_lookup, Hx in Hd.
  simpl in Hd. inversion Hd; subst d. rewrite labels_wrap.
  rewrite item_add_where_positive, Hv. simpl.
  case_bool_decide; (split; [|split]); try done; try lia.
  intros ->. done.
Qed.

Lemma reconcile_keeps_background_witness :
  ∃ out final,
    reconcile (P := legacy) two_crops = Ok (out, final) ∧
    ∀ d, out !! 1%nat = Some d → item (labels d) 0 0 = Some 0.
Proof.
  destruct (reconcile_keeps_background (P := legacy)
              two_crops has_pixel_two_crops two_dimensional_two_crops)
    as (out & final & Hrun & _ & Hzero).
  exists out, final. split; [exact Hrun|]. intros d Hd.
  by apply (Hzero 1%nat (mkLabels int32 2 [[0; 1]; [1; 0]]) d 0%nat 0%nat 0
              eq_refl Hd eq_refl).
Defined.




(** ** The blob backend *)

Lemma model_is_name `{L : Libraries} (n name : string) :
  model_is (ModelName n) name = bool_decide (n = name).
Proof.
  simpl. destruct (String.eqb_spec n name).
  - by rewrite bool_decide_true.
  - by rewrite bool_decide_false.
Qed.

(** C8. For a method name other than [log], [dog] and [doh], the blob
    backend raises the [ValueError] whose message ends with the name and
    calls no blob-detection routine (it makes no external call at all), both
    in [_segment] and through the public [segment] method. *)
Theorem blob_unrecognized_method `{L : Libraries}
    (name : string) (img : ndarray Q) (invert : bool) (kwargs : Kwargs) :
  name ≠ "log" → name ≠ "dog" → name ≠ "doh" →
  SegmentationModelBlob_segment (ModelName name) img invert kwargs
    = (Raise (ValueError ("did not recognize self.model " +:+ name)), [])
  ∧ SegmentationModel_segment (SegmentationModelBlob (ModelName name)) img kwargs
    = (Raise (ValueError ("did not recognize self.model " +:+ name)), []).
Proof.
  intros Hlog Hdog Hdoh.
  assert (∀ i inv kw, SegmentationModelBlob_segment (ModelName name) i inv kw
    = (Raise (ValueError ("did not recognize self.model " +:+ name)), [])) as Hraise.
  { intros i inv kw. unfold SegmentationModelBlob_segment.
    rewrite !model_is_name, !bool_decide_false by done. done. }
  split; [apply Hraise|]. unfold SegmentationModel_segment. apply Hraise.
Qed.

Lemma blob_unrecognized_method_witness :
  SegmentationModelBlob_segment (L := toy_libraries)
    (ModelName "LoG") [[(1 # 2)%Q]] true ∅
  = (Raise (ValueError "did not recognize self.model LoG"), []).
Proof.
  exact (proj1 (blob_unrecognized_method (L := toy_libraries)
    "LoG" [[(1 # 2)%Q]] true ∅ ltac:(done) ltac:(done) ltac:(done))).
Defined.

(** The recognised names reach their routine. *)
Example blob_log_is_called :
  SegmentationModelBlob_segment (L := toy_libraries) (ModelName "log") [[1%Q]] true ∅
  = (Ok (mkLabels int32 2 []), [call_blob_log]).
Proof. reflexivity. Qed.


(** ** The watershed backend *)

Lemma Qlt_bool_iff (a b : Q) : Qlt_bool a b = true ↔ (a < b)%Q.
Proof.
  unfold Qlt_bool. rewrite negb_true_iff, <- not_true_iff_false, Qle_bool_iff.
  split; [apply Qnot_le_lt | apply Qlt_not_le].
Qed.

Lemma one_minus_mask (arr : ndarray Q) (thresh : Q) (geq : bool) :
  one_minus (if geq then elementwise (λ v, Qle_bool thresh v) arr
             else elementwise (λ v, Qlt_bool v thresh) arr)
  = outside_threshold arr thresh geq.
Proof.
  unfold one_minus, outside_threshold.
  destruct geq; rewrite elementwise_compose; apply elementwise_ext;
    intros v; unfold Qlt_bool; simpl; by destruct (Qle_bool thresh v).
Qed.

(** The wiring as the code has it. The thresholded set ([>= thresh] when
    [geq], [< thresh] otherwise) is the mask, and all three routines receive
    its complement [1 - mask]: the distance transform runs over the
    complement, the local maxima (5 by 5 footprint of ones) are restricted to
    the complement, the connected maxima are labelled as markers, and the
    region growing runs on the inverted input constrained to the complement.
    The complement holds 1 exactly on the pixels outside the thresholded
    set. *)
Lemma watershed_segments_outside_threshold `{L : Libraries}
    (arr : ndarray Q) (thresh : Q) (geq : bool) :
  let region := outside_threshold arr thresh geq in
  SegmentationModelWatershed_segment arr thresh geq
  = (distance ← call call_distance_transform_edt (distance_transform_edt region);
     local_maxi ← call call_peak_local_max
                       (peak_local_max distance (np_ones 5 5) region);
     labelled ← call call_ndi_label (ndi_label local_maxi);
     inverted ← call call_invert (invert arr);
     call call_watershed (watershed inverted labelled.1 region))
  ∧ np_ones 5 5 = [[1; 1; 1; 1; 1]; [1; 1; 1; 1; 1]; [1; 1; 1; 1; 1];
                   [1; 1; 1; 1; 1]; [1; 1; 1; 1; 1]]%Q
  ∧ ∀ r c v, item arr r c = Some v →
      ∃ b, item region r c = Some b ∧ (b = 0 ∨ b = 1) ∧
           (b = 1 ↔ if geq then (v < thresh)%Q else (thresh <= v)%Q).
Proof.
  intros region. split; [|split; [done|]].
  - unfold SegmentationModelWatershed_segment. simpl.
    by rewrite one_minus_mask.
  - intros r c v Hv. unfold region, outside_threshold.
    rewrite item_elementwise, Hv. simpl. eexists; split; [done|].
    destruct geq.
    + destruct (Qlt_bool v thresh) eqn:E; simpl.
      * split; [by right|]. by apply Qlt_bool_iff in E.
      * split; [by left|]. split; [done|]. intros Hlt.
        apply Qlt_bool_iff in Hlt. congruence.
    + destruct (Qle_bool thresh v) eqn:E; simpl.
      * split; [by right|]. by apply Qle_bool_iff in E.
      * split; [by left|]. split; [done|]. intros Hle.
        apply Qle_bool_iff in Hle. congruence.
Qed.

(** What the wiring means for a region growing that labels a pixel only
    inside its mask: no pixel of the thresholded set receives a label. *)
Lemma watershed_leaves_threshold_set_unlabelled `{L : Libraries}
    (arr : ndarray Q) (thresh : Q) (geq : bool) (out : Labels) :
  (∀ surface markers mask res r c,
     watershed surface markers mask = Ok res →
     item mask r c = Some 0 → item (pixels res) r c = Some 0) →
  (SegmentationModelWatershed_segment arr thresh geq).1 = Ok out →
  ∀ r c v, item arr r c = Some v →
    (if geq then (thresh <= v)%Q else (v < thresh)%Q) →
    item (pixels out) r c = Some 0.
Proof.
  intros Hcontract Hrun r c v Hv Hin.
  unfold SegmentationModelWatershed_segment in Hrun. simpl in Hrun.
  rewrite one_minus_mask in Hrun.
  destruct (distance_transform_edt _) as [distance|]; simpl in Hrun; [|done].
  destruct (peak_local_max _ _ _) as [local_maxi|]; simpl in Hrun; [|done].
  destruct (ndi_label _) as [labelled|]; simpl in Hrun; [|done].
  destruct (invert _) as [inverted|]; simpl in Hrun; [|done].
  eapply Hcontract; [exact Hrun|].
  unfold outside_threshold. rewrite item_elementwise, Hv. simpl. do 2 f_equal.
  destruct geq.
  - apply Qle_bool_iff in Hin. unfold Qlt_bool. by rewrite Hin.
  - apply Qlt_bool_iff in Hin. unfold Qlt_bool in Hin.
    by apply negb_true_iff in Hin as ->.
Qed.

(** The code is not the wiring of the docstring and of the spec: with the
    region growing constrained to the thresholded set a pixel at or above
    the threshold could be labelled, while the source constrains it to the
    complement. On the one-pixel image [[1]] with threshold 1/2 the two
    wirings differ. *)
Lemma watershed_not_constrained_to_threshold_set :
  ¬ (∀ (L : Libraries) (arr : ndarray Q) (thresh : Q) (geq : bool),
       SegmentationModelWatershed_segment arr thresh geq
       = watershed_as_specified arr thresh geq).
Proof.
  intros Hclaim.
  specialize (Hclaim toy_libraries [[1%Q]] (1 # 2)%Q true).
  vm_compute in Hclaim. discriminate Hclaim.
Qed.

(** C4, on the image [[1, 0]] with [thresh = 1/2] and [geq = True]. The
    docstring of [_segment] (lines 122-125) and the claim make the pixel at
    or above the threshold the state to segment. The code, with any
    libraries, hands [1 - mask = [[0, 1]]] to the distance transform, to the
    local maxima as [labels] and to the region growing as [mask]; a region
    growing that labels no pixel outside its mask therefore leaves the pixel
    at or above the threshold without a label; and with libraries whose
    region growing fills its mask, the code returns [[0, 1]], the segment on
    the pixel below the threshold, where the wiring of the claim returns
    [[1, 0]]. *)
Theorem watershed_segments_below_threshold :
  (∀ L : Libraries,
     SegmentationModelWatershed_segment (L := L) [[1; 0]]%Q (1 # 2) true
     = (distance ← call call_distance_transform_edt
                       (distance_transform_edt [[0; 1]]);
        local_maxi ← call call_peak_local_max
                          (peak_local_max distance (np_ones 5 5) [[0; 1]]);
        labelled ← call call_ndi_label (ndi_label local_maxi);
        inverted ← call call_invert (invert [[1; 0]]%Q);
        call call_watershed (watershed inverted labelled.1 [[0; 1]])))
  ∧ (∀ (L : Libraries) (out : Labels),
       (∀ surface markers mask res r c,
          watershed surface markers mask = Ok res →
          item mask r c = Some 0 → item (pixels res) r c = Some 0) →
       (SegmentationModelWatershed_segment (L := L) [[1; 0]]%Q (1 # 2) true).1
       = Ok out →
       item (pixels out) 0 0 = Some 0)
  ∧ (SegmentationModelWatershed_segment (L := filling_libraries)
       [[1; 0]]%Q (1 # 2) true).1
    = Ok (mkLabels int32 2 [[0; 1]])
  ∧ (watershed_as_specified (L := filling_libraries) [[1; 0]]%Q (1 # 2) true).1
    = Ok (mkLabels int32 2 [[1; 0]]).
Proof.
  split; [|split; [|split]].
  - intros L.
    exact (proj1 (watershed_segments_outside_threshold (L := L)
                    [[1; 0]]%Q (1 # 2) true)).
  - intros L out Hcontract Hrun.
    apply (watershed_leaves_threshold_set_unlabelled (L := L)
             [[1; 0]]%Q (1 # 2) true out Hcontract Hrun 0%nat 0%nat 1%Q eq_refl).
    by vm_compute.
  - reflexivity.
  - reflexivity.
Qed.

(** ** The dispatch on the backend selector *)

Lemma SegmentationBackend_call_selects `{B : BackendDecl} model_group m :
  SegmentationBackend_call model_group = Ok m → selects model_group m.
Proof.
  destruct model_group as [v|m']; simpl.
  - destruct (list_find _ _) as [[i m'']|] eqn:E; [|done].
    intros [= ->]. apply list_find_Some in E as (_ & Hs & _). right. by rewrite Hs.
  - intros [= ->]. by left.
Qed.

(** C7, as the code has it. For a selector that names none of the three
    variants, [segment] raises before any external call (so before any crop
    is read) and leaves the container as it was. The exception is
    [NotImplementedError] naming the value when the selector resolves to a
    further member of the enumeration, and the enumeration's own
    [ValueError] when it resolves to no member. *)
Theorem segment_unrecognized_selector
    `{L : Libraries} `{C : Container} `{B : BackendDecl} `{P : promotion}
    (img_id : string) (model_group : Selector) (model_instance : ModelRef Model)
    (model_kwargs : Kwargs) (channel_idx xs ys : option Z)
    (key_added : option string) (img : ImageContainer) :
  ¬ selects model_group BLOB → ¬ selects model_group WATERSHED →
  ¬ selects model_group TENSORFLOW →
  ∃ e, segment img_id model_group model_instance model_kwargs channel_idx
               xs ys key_added img = ((Raise e, []), img)
       ∧ match SegmentationBackend_call model_group with
         | Ok m => e = NotImplementedError (s m)
         | Raise e' => e = e' ∧ ∃ v, model_group = ByValue v
                                     ∧ e' = ValueError (invalid_option v)
         end.
Proof.
  intros Hb Hw Ht. unfold segment, mbind, prog_bind, pure_step, lift, make_model.
  destruct (SegmentationBackend_call model_group) as [m|e] eqn:E.
  - apply SegmentationBackend_call_selects in E.
    destruct m as [| | |n]; try done. simpl. eauto.
  - exists e. split; [done|]. split; [done|].
    destruct model_group as [v|m]; simpl in E; [|done].
    exists v. split; [done|]. destruct (list_find _ _) as [[??]|]; [done|].
    by inversion E.
Qed.

Lemma segment_unrecognized_selector_witness :
  segment (L := toy_libraries) (C := toy_container) (B := three_variants)
    (P := legacy)
    "image" (ByValue "nonsense") NoModel ∅ None None None None
    {["image" := [[0; 1]]]}
  = ((Raise (ValueError "Invalid option nonsense for SegmentationBackend"), []),
     {["image" := [[0; 1]]]}).
Proof.
  destruct (segment_unrecognized_selector
    (L := toy_libraries) (C := toy_container) (B := three_variants)
    (P := legacy)
    "image" (ByValue "nonsense") NoModel ∅ None None None None
    {["image" := [[0; 1]]]}) as (e & Hseg & He).
  - intros [?|?]; discriminate.
  - intros [?|?]; discriminate.
  - intros [?|?]; discriminate.
  - simpl in He. destruct He as [-> _]. exact Hseg.
Defined.

(** C7, as stated, fails: on an enumeration with exactly the three variants a
    nonsense selector is rejected by the enumeration with its [ValueError];
    the [NotImplementedError] branch is not reached. *)
Lemma segment_nonsense_selector_not_NotImplementedError :
  ¬ (∀ (L : Libraries) (C : Container) (B : BackendDecl) (P : promotion)
       (v : string) (img : ImageContainer),
       ¬ selects (ByValue v) BLOB → ¬ selects (ByValue v) WATERSHED →
       ¬ selects (ByValue v) TENSORFLOW →
       segment "image" (ByValue v) NoModel ∅ None None None None img
       = ((Raise (NotImplementedError v), []), img)).
Proof.
  intros Hclaim.
  specialize (Hclaim toy_libraries toy_container three_variants legacy "nonsense"
    ({["image" := [[0; 1]]]} : gmap string (list (list Z)))).
  assert (∀ m, m ∈ [BLOB; WATERSHED; TENSORFLOW] →
               ¬ selects (B := three_variants) (ByValue "nonsense") m) as Hno.
  { intros m Hm [?|E]; [done|]. inversion E as [E'].
    repeat (apply elem_of_cons in Hm as [->|Hm]; [discriminate E'|]).
    by apply elem_of_nil in Hm. }
  specialize (Hclaim (Hno BLOB ltac:(set_solver)) (Hno WATERSHED ltac:(set_solver))
                     (Hno TENSORFLOW ltac:(set_solver))).
  apply (f_equal (λ r, r.1.1)) in Hclaim. simpl in Hclaim. discriminate Hclaim.
Qed.

(** ** Failure of a backend inside [segment] *)

Lemma traced_bind_calls {A B} (m : traced A) (f : A → traced B) (P : Call → Prop) :
  Forall P m.2 → (∀ a, Forall P (f a).2) → Forall P (m ≫= f).2.
Proof.
  destruct m as [[a|e] cs]; simpl; intros Hm Hf; [|done].
  specialize (Hf a). destruct (f a) as [r cs']. simpl in *.
  by apply Forall_app.
Qed.

Lemma call_calls {A} (c : Call) (r : result A) (P : Call → Prop) :
  P c → Forall P (call c r).2.
Proof. intros. by repeat constructor. Qed.

Lemma SegmentationModel_segment_calls `{L : Libraries}
    (model : SegmentationModel) (img : ndarray Q) (kwargs : Kwargs) :
  Forall backend_call (SegmentationModel_segment model img kwargs).2.
Proof.
  destruct model as [m|m|m]; unfold SegmentationModel_segment.
  - unfold SegmentationModelBlob_segment.
    repeat case_match; try (apply call_calls; by repeat split); constructor.
  - apply traced_bind_calls; [constructor|]. intros thresh.
    unfold SegmentationModelWatershed_segment.
    repeat (apply traced_bind_calls; [apply call_calls; by repeat split|]; intros ?).
    apply call_calls; by repeat split.
  - apply call_calls; by repeat split.
Qed.

Lemma segment_each_calls `{L : Libraries} `{C : Container}
    (model : SegmentationModel) (sel : ChannelSel) (kwargs : Kwargs)
    (crops : list Crop) :
  Forall backend_call (segment_each model sel kwargs crops).2.
Proof.
  induction crops as [|x rest IH]; simpl; [constructor|].
  apply traced_bind_calls; [apply SegmentationModel_segment_calls|]. intros y.
  apply traced_bind_calls; [apply IH|]. intros ys. constructor.
Qed.

(** An exception on any crop ends the comprehension with an exception. *)
Lemma segment_each_raises `{L : Libraries} `{C : Container}
    (model : SegmentationModel) (sel : ChannelSel) (kwargs : Kwargs)
    (crops : list Crop) (k : nat) (x : Crop) (e : exn) :
  crops !! k = Some x →
  (SegmentationModel_segment model (isel_channels x sel) kwargs).1 = Raise e →
  ∃ e', (segment_each model sel kwargs crops).1 = Raise e'
        ∧ (k = 0%nat → e' = e).
Proof.
  revert k. induction crops as [|y rest IH]; intros k Hk He; [done|].
  simpl. destruct k as [|k]; simpl in Hk.
  - inversion Hk; subst y.
    destruct (SegmentationModel_segment _ _ _) as [[l|e0] cs]; simpl in *; [done|].
    inversion He; subst. eauto.
  - destruct (SegmentationModel_segment model (isel_channels y sel) kwargs)
      as [[l|e0] cs]; simpl; [|eexists; split; [done|lia]].
    destruct (IH k Hk He) as (e' & He' & _).
    destruct (segment_each _ _ _ rest) as [[ls|e1] cs']; simpl in *; [done|].
    eexists; split; [done|lia].
Qed.

Lemma make_model_calls `{L : Libraries} `{B : BackendDecl}
    (m : SegmentationBackend) (model_instance : ModelRef Model) :
  Forall (λ c, c ≠ call_add_img ∧ c ≠ call_uncrop_img)
         (make_model m model_instance).2.
Proof.
  destruct m; simpl; try constructor.
  unfold SegmentationModelPretrainedTensorflow_init.
  apply traced_bind_calls; [by apply call_calls|]. intros [|]; constructor.
Qed.

Lemma channel_slice_of_calls `{C : Container} (channel_idx : option Z) (crops : list Crop) :
  (channel_slice_of channel_idx crops).2 = [].
Proof. unfold channel_slice_of. by repeat case_match. Qed.

Lemma backend_call_early (cs : list Call) :
  Forall backend_call cs →
  Forall (λ c, c ≠ call_add_img ∧ c ≠ call_uncrop_img) cs.
Proof. intros Hcs. eapply Forall_impl; [exact Hcs|]. by intros c (? & ? & ?). Qed.

Lemma not_called (c : Call) (cs : list Call) (P : Call → Prop) :
  Forall P cs → ¬ P c → c ∉ cs.
Proof. rewrite Forall_forall. intros Hcs Hc Hin. by apply Hc, Hcs. Qed.

Ltac abort_case :=
  match goal with
  | Hseg : _ = (_, _, _), Hchanged : _ ∨ _ |- _ =>
      simpl in *; inversion Hseg; subst; clear Hseg;
      destruct Hchanged as [Hin|Hne]; [exfalso|done];
      repeat (rewrite ?elem_of_app, ?elem_of_cons, ?elem_of_nil in Hin);
      intuition discriminate
  end.

(** C9. When the enumeration, the backend object, the tiling and the channel
    selection have gone through and the backend raises on some crop,
    [segment] ends with an exception, the container is the one it started
    with, and neither the stitcher nor [add_img] was called. And whatever
    the inputs, [add_img] is called, or the container differs afterwards,
    only when every crop was segmented, the labels were reconciled and the
    stitcher returned: the container then is the one [add_img] returned for
    the stitched array. *)
Theorem segment_backend_failure_aborts
    `{L : Libraries} `{C : Container} `{B : BackendDecl} `{P : promotion}
    (img_id : string) (model_group : Selector) (model_instance : ModelRef Model)
    (model_kwargs : Kwargs) (channel_idx xs ys : option Z)
    (key_added : option string) (img : ImageContainer)
    (m : SegmentationBackend) (model : SegmentationModel)
    (crops : list Crop) (xcoord ycoord : list Z) (sel : ChannelSel)
    (k : nat) (x : Crop) (e : exn) :
  SegmentationBackend_call model_group = Ok m →
  (make_model m model_instance).1 = Ok model →
  crop_equally img xs ys img_id = Ok (crops, xcoord, ycoord) →
  (channel_slice_of channel_idx crops).1 = Ok sel →
  crops !! k = Some x →
  (SegmentationModel_segment model (isel_channels x sel) model_kwargs).1 = Raise e →
  (∃ e' cs, segment img_id model_group model_instance model_kwargs channel_idx
                    xs ys key_added img = ((Raise e', cs), img)
            ∧ (call_uncrop_img ∉ cs) ∧ (call_add_img ∉ cs))
  ∧ (∀ model_group' model_instance' model_kwargs' channel_idx' xs' ys'
       key_added' img0 r cs img',
       segment img_id model_group' model_instance' model_kwargs' channel_idx'
               xs' ys' key_added' img0 = ((r, cs), img') →
       call_add_img ∈ cs ∨ img' ≠ img0 →
       ∃ m' model' crops' xcoord' ycoord' sel' labelled out final stitched,
         SegmentationBackend_call model_group' = Ok m'
         ∧ (make_model m' model_instance').1 = Ok model'
         ∧ crop_equally img0 xs' ys' img_id = Ok (crops', xcoord', ycoord')
         ∧ (channel_slice_of channel_idx' crops').1 = Ok sel'
         ∧ (segment_each model' sel' model_kwargs' crops').1 = Ok labelled
         ∧ reconcile labelled = Ok (out, final)
         ∧ uncrop_img out xcoord' ycoord' (reverse (shape img0)) "mask" = Ok stitched
         ∧ (r = Ok () →
            add_img img0 stitched
              (match key_added' with None => "segmented_" +:+ s m' | Some key => key end)
              "mask" = Ok img')).
Proof.
  intros Hm Hmodel Hcrops Hsel Hk He. split.
  - unfold segment, mbind, prog_bind, pure_step, read_img, lift.
    rewrite Hm. destruct (make_model m model_instance) as [r0 cs0] eqn:E0.
    simpl in Hmodel. subst r0. rewrite Hcrops. simpl.
    destruct (channel_slice_of channel_idx crops) as [r1 cs1] eqn:E1.
    simpl in Hsel. subst r1.
    destruct (segment_each_raises model sel model_kwargs crops k x e Hk He)
      as (e' & He' & _).
    pose proof (segment_each_calls model sel model_kwargs crops) as Hcalls.
    destruct (segment_each model sel model_kwargs crops) as [r2 cs2].
    simpl in He', Hcalls. subst r2. do 2 eexists. split; [done|].
    assert (cs1 = []) as ->
      by (pose proof (channel_slice_of_calls channel_idx crops) as Hc;
          by rewrite E1 in Hc).
    pose proof (make_model_calls m model_instance) as Hcs0. rewrite E0 in Hcs0.
    assert (Forall (λ c, c ≠ call_add_img ∧ c ≠ call_uncrop_img)
                   (cs0 ++ call_crop_equally :: [] ++ cs2)) as Hall.
    { apply Forall_app; split; [done|]. constructor; [done|].
      by apply backend_call_early. }
    split; eapply not_called; try exact Hall; intros [? ?]; done.
  - intros mg' mi' kw' cidx' xs' ys' key' img0 r cs img' Hseg Hchanged.
    unfold segment, mbind, prog_bind, pure_step, read_img, write_img, lift in Hseg.
    destruct (SegmentationBackend_call mg') as [m'|e0] eqn:Em; [|abort_case].
    pose proof (make_model_calls m' mi') as Hcs0.
    apply not_called with (c := call_add_img) in Hcs0; [|by intros [? ?]].
    destruct (make_model m' mi') as [[model'|e1] cs0] eqn:E0; [|abort_case].
    destruct (crop_equally img0 xs' ys' img_id) as [[[crops' xc] yc]|e2] eqn:Ec;
      simpl in Hseg; [|abort_case].
    pose proof (channel_slice_of_calls cidx' crops') as Hcs1.
    destruct (channel_slice_of cidx' crops') as [[sel'|e3] cs1] eqn:E1;
      simpl in Hcs1; subst cs1; [|abort_case].
    pose proof (segment_each_calls model' sel' kw' crops') as Hcs2.
    apply backend_call_early in Hcs2.
    apply not_called with (c := call_add_img) in Hcs2; [|by intros [? ?]].
    destruct (segment_each model' sel' kw' crops') as [[labelled|e4] cs2] eqn:E2;
      [|abort_case].
    destruct (reconcile labelled) as [[out final]|e5] eqn:E3; [|abort_case].
    destruct (uncrop_img out xc yc (reverse (shape img0)) "mask")
      as [stitched|e6] eqn:E4; simpl in Hseg; [|abort_case].
    exists m', model', crops', xc, yc, sel', labelled, out, final, stitched.
    split; [done|]. split; [by rewrite E0|]. split; [done|].
    split; [by rewrite E1|]. split; [by rewrite E2|]. split; [done|].
    split; [done|]. intros ->.
    destruct (add_img img0 stitched _ "mask") as [img1|e7] eqn:E5;
      simpl in Hseg; by inversion Hseg.
Qed.

Lemma segment_backend_failure_aborts_witness :
  ∃ e' cs,
    segment (L := toy_libraries) (C := toy_container) (B := three_variants)
    (P := legacy)
      "image" (ByValue "blob") (ModelName "LoG") ∅ None None None None
      {["image" := [[0; 1]]]}
    = ((Raise e', cs), {["image" := [[0; 1]]]})
    ∧ (call_uncrop_img ∉ cs) ∧ (call_add_img ∉ cs).
Proof.
  apply (segment_backend_failure_aborts
           (L := toy_libraries) (C := toy_container) (B := three_variants)
    (P := legacy)
           "image" (ByValue "blob") (ModelName "LoG") ∅ None None None None
           {["image" := [[0; 1]]]} BLOB (SegmentationModelBlob (ModelName "LoG"))
           [(0, 0, [[0%Q; 1%Q]])] [0] [0] (ChannelSlice 0 1)
           0%nat (0, 0, [[0%Q; 1%Q]])
           (ValueError "did not recognize self.model LoG")).
  - by vm_compute.
  - by vm_compute.
  - by vm_compute.
  - by vm_compute.
  - by vm_compute.
  - by vm_compute.
Defined.

(** A run that goes through adds the layer under the default key. *)
Example segment_watershed_adds_layer :
  segment (L := toy_libraries) (C := toy_container) (B := three_variants)
    (P := legacy)
    "image" (ByValue "watershed") NoModel ∅ None None None None
    {["image" := [[0; 1]]]}
  = ((Ok (), [call_crop_equally; call_distance_transform_edt; call_peak_local_max;
              call_ndi_label; call_invert; call_watershed;
              call_uncrop_img; call_add_img]),
     <["segmented_watershed" := [[1; 0]]]> {["image" := [[0; 1]]]}).
Proof. by vm_compute. Qed.

(** ** [segment_crops] *)

Lemma row_hits_elem (i : Z) (c : nat) (row : list Z) (c' : nat) :
  c' ∈ row_hits i c row ↔ ∃ j, c' = (c + j)%nat ∧ row !! j = Some i.
Proof.
  revert c. induction row as [|v rest IH]; intros c; simpl.
  - rewrite elem_of_nil. split; [done|]. by intros (j & _ & ?).
  - assert ((∃ j, c' = (c + j)%nat ∧ (v :: rest) !! j = Some i) ↔
            (c' = c ∧ v = i) ∨ ∃ j, c' = (S c + j)%nat ∧ rest !! j = Some i) as ->.
    { split.
      - intros ([|j] & -> & Hj); simpl in Hj.
        + left. split; [lia|congruence].
        + right. exists j. split; [lia|done].
      - intros [[-> ->]|(j & -> & Hj)].
        + exists 0%nat. split; [lia|done].
        + exists (S j). split; [lia|done]. }
    case_bool_decide as Hv.
    + rewrite elem_of_cons, IH. split; (intros [Hc|Hj]; [left|by right]).
      * done.
      * by destruct Hc.
    + rewrite IH. split; [by right|]. by intros [[_ ?]|?].
Qed.

Lemma row_hits_NoDup (i : Z) (c : nat) (row : list Z) : NoDup (row_hits i c row).
Proof.
  revert c. induction row as [|v rest IH]; intros c; simpl; [constructor|].
  case_bool_decide; [|apply IH]. constructor; [|apply IH].
  rewrite row_hits_elem. intros (j & ? & _). lia.
Qed.

Lemma hits_from_elem (i : Z) (r : nat) (a : ndarray Z) (r' c' : nat) :
  (r', c') ∈ hits_from i r a ↔
  ∃ j row, r' = (r + j)%nat ∧ a !! j = Some row ∧ row !! c' = Some i.
Proof.
  revert r. induction a as [|row0 rest IH]; intros r; simpl.
  - rewrite elem_of_nil. split; [done|]. by intros (j & row & _ & ? & _).
  - rewrite elem_of_app, list_elem_of_fmap, IH. split.
    + intros [(c & [= -> ->] & Hc)|(j & row & -> & Hj & Hc)].
      * apply row_hits_elem in Hc as (j & -> & Hj).
        exists 0%nat, row0. split; [lia|]. split; [done|]. by rewrite Nat.add_0_l.
      * exists (S j), row. split; [lia|]. done.
    + intros ([|j] & row & -> & Hj & Hc); simpl in Hj.
      * left. inversion Hj; subst row0. exists c'. split; [f_equal; lia|].
        apply row_hits_elem. exists c'. split; [lia|done].
      * right. exists j, row. split; [lia|done].
Qed.

Lemma hits_from_NoDup (i : Z) (r : nat) (a : ndarray Z) : NoDup (hits_from i r a).
Proof.
  revert r. induction a as [|row0 rest IH]; intros r; simpl; [constructor|].
  apply NoDup_app. split; [|split; [|apply IH]].
  - apply NoDup_fmap_2; [|apply row_hits_NoDup]. by intros ?? [= ->].
  - intros [r' c'] Hin Hin'. apply list_elem_of_fmap in Hin as (c & [= -> ->] & _).
    apply hits_from_elem in Hin' as (j & _ & ? & _). lia.
Qed.

(** [np.where(layer == i)] lists exactly the pixels equal to [i], once each. *)
Lemma hits_pixels_of (layer : ndarray Z) (i : Z) :
  pixels_of layer i (hits_from i 0 layer).
Proof.
  split; [apply hits_from_NoDup|]. intros r c. rewrite hits_from_elem.
  unfold item. split.
  - intros (j & row & -> & Hj & Hc). simpl. by rewrite Hj.
  - intros H. destruct (layer !! r) as [row|] eqn:Hr; simpl in H; [|done].
    exists r, row. done.
Qed.

Lemma pixels_of_Permutation (layer : ndarray Z) (i : Z) (pix : list (nat * nat)) :
  pixels_of layer i pix → pix ≡ₚ hits_from i 0 layer.
Proof.
  intros [Hnd Hin]. destruct (hits_pixels_of layer i) as [Hnd' Hin'].
  apply NoDup_Permutation; [done|done|]. intros [r c]. by rewrite Hin, Hin'.
Qed.

Lemma pixels_of_occurs (layer : ndarray Z) (i : Z) (pix : list (nat * nat)) :
  pixels_of layer i pix → (pix ≠ [] ↔ i ∈ ravel layer).
Proof.
  intros [_ Hin]. split.
  - destruct pix as [|[r c] pix]; [done|]. intros _.
    eapply item_ravel, Hin. by left.
  - intros Hi Hnil. subst pix. unfold ravel in Hi.
    apply list_elem_of_join in Hi as (row & Hi & Hrow).
    apply list_elem_of_lookup in Hrow as (r & Hr).
    apply list_elem_of_lookup in Hi as (c & Hc).
    apply (not_elem_of_nil (r, c)), Hin. unfold item. by rewrite Hr.
Qed.

Lemma np_where_eq_means (layer : ndarray Z) (i : Z) (pix : list (nat * nat)) :
  pixels_of layer i pix → pix ≠ [] →
  segment_centre layer i =
  (Some (Z.of_nat (sum_list pix.*1) # Pos.of_nat (length pix)),
   Some (Z.of_nat (sum_list pix.*2) # Pos.of_nat (length pix))).
Proof.
  intros Hpix Hne. pose proof (pixels_of_Permutation _ _ _ Hpix) as Hperm.
  unfold segment_centre, np_where_eq. simpl.
  assert (hits_from i 0 layer ≠ []) as Hne'.
  { intros E. rewrite E in Hperm. by apply Permutation_nil_r in Hperm. }
  assert (sum_list (hits_from i 0 layer).*1 = sum_list pix.*1) as H1
    by (by rewrite Hperm).
  assert (sum_list (hits_from i 0 layer).*2 = sum_list pix.*2) as H2
    by (by rewrite Hperm).
  assert (length (hits_from i 0 layer) = length pix) as Hlen
    by (by rewrite Hperm).
  unfold np_mean. destruct (hits_from i 0 layer) as [|h hits] eqn:Eh; [done|].
  rewrite !fmap_cons, <- !fmap_cons, H1, H2, !length_fmap, Hlen. done.
Qed.

Lemma np_unique_elem (layer : ndarray Z) (v : Z) :
  v ∈ np_unique layer ↔ v ∈ ravel layer.
Proof. unfold np_unique. by rewrite merge_sort_Permutation, elem_of_remove_dups. Qed.

Lemma segment_ids_elem (layer : ndarray Z) (v : Z) :
  v ∈ segment_ids layer ↔ v ∈ ravel layer ∧ v ≠ 0.
Proof.
  unfold segment_ids, np_sort.
  rewrite merge_sort_Permutation, elem_of_elements, elem_of_difference.
  by rewrite elem_of_list_to_set, np_unique_elem, elem_of_singleton.
Qed.

Lemma segment_ids_set (layer : ndarray Z) :
  (list_to_set (np_unique layer) : gset Z) ∖ {[0]} = label_set layer ∖ {[0]}.
Proof.
  apply set_eq. intros v. rewrite !elem_of_difference, label_set_elem.
  by rewrite elem_of_list_to_set, np_unique_elem.
Qed.

Lemma segment_ids_length (layer : ndarray Z) :
  length (segment_ids layer) = size (label_set layer ∖ {[0]}).
Proof.
  unfold segment_ids, np_sort. rewrite merge_sort_Permutation, segment_ids_set.
  done.
Qed.

Lemma segment_ids_NoDup (layer : ndarray Z) : NoDup (segment_ids layer).
Proof.
  unfold segment_ids, np_sort. rewrite merge_sort_Permutation.
  apply NoDup_elements.
Qed.

Lemma StronglySorted_le_lt (l : list Z) :
  StronglySorted Z.le l → NoDup l → StronglySorted Z.lt l.
Proof.
  induction 1 as [|v l Hs IH Hall]; intros Hnd; [constructor|].
  apply NoDup_cons in Hnd as [Hv Hnd]. constructor; [by apply IH|].
  rewrite Forall_forall in Hall |- *. intros w Hw.
  specialize (Hall w Hw). assert (v ≠ w) by (by intros ->). lia.
Qed.

Lemma segment_ids_ascending (layer : ndarray Z) :
  StronglySorted Z.lt (segment_ids layer).
Proof.
  apply StronglySorted_le_lt; [|apply segment_ids_NoDup].
  unfold segment_ids, np_sort. apply StronglySorted_merge_sort; apply _.
Qed.

Lemma segment_centre_defined (layer : ndarray Z) (i : Z) :
  i ∈ ravel layer →
  ∃ p q, segment_centre layer i = (Some p, Some q).
Proof.
  intros Hi. pose proof (hits_pixels_of layer i) as Hpix.
  apply (pixels_of_occurs _ _ _ Hpix) in Hi.
  rewrite (np_where_eq_means layer i _ Hpix Hi). eauto.
Qed.

Lemma crop_all_ok `{C : Container} (img : ImageContainer) (img_id : string)
    (xs ys : option Z) (centres : list (option Q * option Q)) :
  Forall (λ c, ∃ p q, c = (Some p, Some q)) centres →
  ∃ crops, crop_all img img_id xs ys centres = Ok crops
           ∧ Forall2 (λ c crop, crop_at img img_id xs ys c = Ok crop) centres crops.
Proof.
  induction 1 as [|c rest (p & q & ->) _ (crops & Hcrops & Hall)]; simpl.
  - exists []. split; [done|constructor].
  - rewrite Hcrops. simpl. eexists. split; [done|]. by constructor.
Qed.

(** The run of [segment_crops] on a stored layer: one crop request per entry
    of [segment_ids], in order. *)
Lemma segment_crops_run `{C : Container}
    (img : ImageContainer) (img_id segmented_img_id : string)
    (xs ys : option Z) (layer : ndarray Z) :
  data img !! segmented_img_id = Some layer →
  ∃ crops,
    segment_crops img img_id segmented_img_id xs ys = Ok crops
    ∧ Forall2 (λ i crop, crop_at img img_id xs ys (segment_centre layer i) = Ok crop)
              (segment_ids layer) crops.
Proof.
  intros Hlayer. unfold segment_crops. rewrite Hlayer.
  destruct (crop_all_ok img img_id xs ys (segment_centre layer <$> segment_ids layer))
    as (crops & Hcrops & Hall).
  { apply Forall_fmap, Forall_forall. intros i Hi. simpl.
    apply segment_ids_elem in Hi as [Hi _]. by apply segment_centre_defined. }
  exists crops. split; [done|]. by apply Forall2_fmap_l in Hall.
Qed.

(** C6. For a stored label layer, [segment_crops] returns one crop per
    distinct nonzero label: the list has as many crops as the layer has
    distinct nonzero values, none when there is no nonzero value, and its
    [k]-th crop is the one requested for the [k]-th label of the strictly
    ascending list of the distinct nonzero labels. *)
Theorem segment_crops_one_per_label `{C : Container}
    (img : ImageContainer) (img_id segmented_img_id : string)
    (xs ys : option Z) (layer : ndarray Z) :
  data img !! segmented_img_id = Some layer →
  ∃ crops ids,
    segment_crops img img_id segmented_img_id xs ys = Ok crops
    ∧ length crops = size (label_set layer ∖ {[0]})
    ∧ length ids = length crops
    ∧ StronglySorted Z.lt ids
    ∧ (∀ v, v ∈ ids ↔ v ∈ ravel layer ∧ v ≠ 0)
    ∧ (∀ k i, ids !! k = Some i →
         ∃ crop, crops !! k = Some crop ∧
                 crop_at img img_id xs ys (segment_centre layer i) = Ok crop)
    ∧ (label_set layer ∖ {[0]} = ∅ → crops = []).
Proof.
  intros Hlayer.
  destruct (segment_crops_run img img_id segmented_img_id xs ys layer Hlayer)
    as (crops & Hcrops & Hall).
  pose proof (Forall2_length _ _ _ Hall) as Hlen.
  exists crops, (segment_ids layer). split; [done|].
  split; [by rewrite <- Hlen, segment_ids_length|]. split; [done|].
  split; [apply segment_ids_ascending|]. split; [apply segment_ids_elem|]. split.
  - intros k i Hk.
    destruct (Forall2_lookup_l _ _ _ _ _ Hall Hk) as (crop & Hcrop & Hat). eauto.
  - intros Hempty. apply length_zero_iff_nil.
    rewrite <- Hlen, segment_ids_length, Hempty. apply size_empty.
Qed.

Lemma segment_crops_one_per_label_witness :
  ∃ crops,
    segment_crops (C := toy_container)
      {["cells" := [[0; 7; 7]; [2; 0; 7]]]} "image" "cells" None None = Ok crops
    ∧ length crops = 2%nat.
Proof.
  destruct (segment_crops_one_per_label (C := toy_container)
    {["cells" := [[0; 7; 7]; [2; 0; 7]]]} "image" "cells" None None
    [[0; 7; 7]; [2; 0; 7]] ltac:(by vm_compute))
    as (crops & ids & Hcrops & Hlen & _).
  exists crops. split; [exact Hcrops|]. rewrite Hlen. by vm_compute.
Defined.

Example segment_crops_two_labels :
  segment_crops (C := toy_container)
    {["cells" := [[0; 7; 7]; [2; 0; 7]]]} "image" "cells" None None
  = Ok [(1, 0, []); (0, 1, [])].
Proof. by vm_compute. Qed.





(* ================================================================== *)
(** * Further properties of the code *)

(** ** The reconciliation pass *)

(** X1. The pass keeps the shape of every crop: the rewritten crop has the
    same rows of the same lengths, a pixel exists after the pass exactly
    where it existed before, and the crop comes back as one plane under the
    dims [mask, y, x]. *)
Theorem reconcile_keeps_shape `{P : promotion} (crops : list Labels) :
  Forall has_pixel crops → Forall two_dimensional crops →
  ∃ out final, reconcile crops = Ok (out, final) ∧ length out = length crops ∧
    ∀ i x d, crops !! i = Some x → out !! i = Some d →
      values d = [labels d] ∧ dims d = ["mask"; "y"; "x"] ∧
      length <$> labels d = length <$> pixels x ∧
      length <$> labels d = length <$> entries x ∧
      ∀ r c, is_Some (item (labels d) r c) ↔ is_Some (item (pixels x) r c).
Proof.
  intros Hp H2. do 2 eexists.
  split; [by apply reconcile_rewritten|].
  split; [apply rewritten_length|].
  intros i x d Hx Hd. rewrite rewritten_lookup, Hx in Hd.
  simpl in Hd. inversion Hd; subst d. rewrite labels_wrap.
  split; [done|]. split; [done|]. unfold add_where_positive.
  split; [apply elementwise_lengths|].
  split; [unfold pixels; by rewrite !elementwise_lengths|].
  intros r c. by rewrite item_elementwise, fmap_is_Some.
Qed.

Lemma reconcile_keeps_shape_witness :
  ∃ out final,
    reconcile (P := legacy) two_crops = Ok (out, final) ∧
    ∀ d, out !! 1%nat = Some d → length <$> labels d = [2; 2]%nat.
Proof.
  destruct (reconcile_keeps_shape (P := legacy)
              two_crops has_pixel_two_crops two_dimensional_two_crops)
    as (out & final & Hrun & _ & Hshape).
  exists out, final. split; [exact Hrun|]. intros d Hd.
  by destruct (Hshape 1%nat (mkLabels int32 2 [[0; 1]; [1; 0]]) d eq_refl Hd)
    as (_ & _ & _ & ? & _).
Defined.







Lemma reconcile_from_cases `{P : promotion} (c : Counter) (crops : list Labels) :
  match reconcile_from c crops with
  | Ok (out, _) =>
      Forall has_pixel crops ∧ Forall two_dimensional crops
      ∧ length out = length crops
  | Raise e =>
      ∃ i x, crops !! i = Some x
        ∧ Forall has_pixel (take i crops)
        ∧ Forall two_dimensional (take i crops)
        ∧ ((ravel (pixels x) = [] ∧
            e = ValueError "zero-size array to reduction operation maximum which has no identity")
           ∨ (has_pixel x ∧ (ndim x < 2)%nat ∧
              e = IndexError "too many indices for array")
           ∨ (has_pixel x ∧ (2 < ndim x)%nat ∧
              e = ValueError "different number of dimensions on data and dims"))
  end.
Proof.
  revert c. induction crops as [|x rest IH]; intros c; [by simpl|].
  simpl. destruct (decide (ravel (pixels x) = [])) as [Hx|Hx].
  { unfold reconcile_body, np_max. rewrite Hx. simpl.
    exists 0%nat, x. split; [done|]. split; [constructor|].
    split; [constructor|]. by left. }
  destruct (decide (ndim x = 2%nat)) as [Hd|Hd].
  - rewrite reconcile_body_ok by done. simpl.
    specialize (IH (next_counter c x)).
    destruct (reconcile_from (next_counter c x) rest) as [[out final]|e]; simpl.
    + destruct IH as (Hp & H2 & Hlen).
      split; [by constructor|]. split; [by constructor|]. simpl. by rewrite Hlen.
    + destruct IH as (i & y & Hy & Hp & H2 & Hcases).
      exists (S i), y. split; [done|]. simpl.
      split; [by constructor|]. split; [by constructor|]. done.
  - unfold reconcile_body.
    destruct (max_of_spec (pixels x) Hx) as (-> & _). simpl.
    destruct (ndim x) as [|[|[|n]]] eqn:En; simpl; [| |done|];
      exists 0%nat, x; (split; [done|]); (split; [constructor|]);
      (split; [constructor|]); right; rewrite En.
    + left. split; [done|]. split; [lia|done].
    + left. split; [done|]. split; [lia|done].
    + right. split; [done|]. split; [lia|done].
Qed.

(** X5. The pass returns exactly when every crop has a pixel and two axes,
    and then returns as many rewritten crops as it was given. Otherwise it
    raises at the first crop that has no pixel or not two axes: the
    [ValueError] of [np.max] on a zero-size crop (line 251, whatever its
    axes), the [IndexError] of the index of line 254 on a crop of fewer than
    two axes, the [ValueError] of [xr.DataArray] on a crop of more than two
    axes. *)
Theorem reconcile_returns_exactly `{P : promotion} (crops : list Labels) :
  match reconcile crops with
  | Ok (out, _) =>
      Forall has_pixel crops ∧ Forall two_dimensional crops
      ∧ length out = length crops
  | Raise e =>
      ∃ i x, crops !! i = Some x
        ∧ Forall has_pixel (take i crops)
        ∧ Forall two_dimensional (take i crops)
        ∧ ((ravel (pixels x) = [] ∧
            e = ValueError "zero-size array to reduction operation maximum which has no identity")
           ∨ (has_pixel x ∧ (ndim x < 2)%nat ∧
              e = IndexError "too many indices for array")
           ∨ (has_pixel x ∧ (2 < ndim x)%nat ∧
              e = ValueError "different number of dimensions on data and dims"))
  end.
Proof.
  unfold reconcile. pose proof (reconcile_from_cases (python_int 0) crops) as H.
  by destruct (reconcile_from (python_int 0) crops) as [[out final]|e].
Qed.

(** A crop of shape (y, x, 1), as the docstring of [segment] describes the
    mask, stops the pass. *)
Example reconcile_three_axes `{P : promotion} :
  reconcile [ mkLabels int32 3 [[0]; [1]; [2]; [2]] ]
  = Raise (ValueError "different number of dimensions on data and dims").
Proof. reflexivity. Qed.

(** X6. Crops that follow never change the labels given to the crops before
    them: the pass on a list followed by further crops returns, for the list,
    what the pass on the list alone returns, and continues on the further
    crops from the counter the list alone ends with. *)
Theorem reconcile_prefix_stable `{P : promotion} (crops further : list Labels) :
  Forall has_pixel (crops ++ further) →
  Forall two_dimensional (crops ++ further) →
  ∃ out out' c c',
    reconcile_from (python_int 0) crops = Ok (out, c) ∧
    reconcile crops = Ok (out, counter_value c) ∧
    reconcile_from c further = Ok (out', c') ∧
    reconcile (crops ++ further) = Ok (out ++ out', counter_value c') ∧
    length out = length crops.
Proof.
  intros Hp H2. apply Forall_app in Hp as [Hp1 Hp2].
  apply Forall_app in H2 as [H21 H22].
  exists (rewritten (python_int 0) crops),
         (rewritten (final_counter (python_int 0) crops) further),
         (final_counter (python_int 0) crops),
         (final_counter (final_counter (python_int 0) crops) further).
  unfold reconcile. rewrite reconcile_from_app.
  rewrite (reconcile_from_rewritten _ crops) by done. simpl.
  rewrite (reconcile_from_rewritten _ further) by done. simpl.
  split; [done|]. split; [done|]. split; [done|]. split; [done|].
  apply rewritten_length.
Qed.

Lemma reconcile_prefix_stable_witness :
  ∃ out out' c c',
    reconcile_from (P := legacy) (python_int 0) [ mkLabels int32 2 [[0; 1]; [2; 2]] ]
    = Ok (out, c) ∧
    reconcile (P := legacy) [ mkLabels int32 2 [[0; 1]; [2; 2]] ]
    = Ok (out, counter_value c) ∧
    reconcile_from (P := legacy) c [ mkLabels int32 2 [[0; 1]; [1; 0]] ]
    = Ok (out', c') ∧
    reconcile (P := legacy)
      ([ mkLabels int32 2 [[0; 1]; [2; 2]] ] ++ [ mkLabels int32 2 [[0; 1]; [1; 0]] ])
    = Ok (out ++ out', counter_value c') ∧
    length out = 1%nat.
Proof.
  apply (reconcile_prefix_stable (P := legacy)
           [ mkLabels int32 2 [[0; 1]; [2; 2]] ] [ mkLabels int32 2 [[0; 1]; [1; 0]] ]).
  - exact has_pixel_two_crops.
  - exact two_dimensional_two_crops.
Defined.

(** ** The backends on the crops *)

Lemma segment_each_cons `{L : Libraries} `{C : Container}
    (model : SegmentationModel) (sel : ChannelSel) (kwargs : Kwargs)
    (x : Crop) (rest : list Crop) :
  segment_each model sel kwargs (x :: rest) =
  match SegmentationModel_segment model (isel_channels x sel) kwargs with
  | (Ok y, cs) =>
      match segment_each model sel kwargs rest with
      | (Ok ys, cs') => (Ok (y :: ys), cs ++ cs')
      | (Raise e, cs') => (Raise e, cs ++ cs')
      end
  | (Raise e, cs) => (Raise e, cs)
  end.
Proof.
  simpl. destruct (SegmentationModel_segment _ _ _) as [[y|e] cs]; simpl; [|done].
  destruct (segment_each model sel kwargs rest) as [[ys|e] cs']; simpl; [|done].
  by rewrite app_nil_r.
Qed.

Lemma segment_each_ok `{L : Libraries} `{C : Container}
    (model : SegmentationModel) (sel : ChannelSel) (kwargs : Kwargs)
    (crops : list Crop) (labelled : list Labels) :
  (segment_each model sel kwargs crops).1 = Ok labelled →
  Forall2 (λ x y, (SegmentationModel_segment model (isel_channels x sel) kwargs).1 = Ok y)
          crops labelled
  ∧ (segment_each model sel kwargs crops).2
    = mjoin (backend_trace model sel kwargs <$> crops).
Proof.
  revert labelled. induction crops as [|x rest IH]; intros labelled.
  - simpl. intros [= <-]. split; [constructor|done].
  - rewrite segment_each_cons, fmap_cons.
    change (mjoin (?a :: ?l)) with (a ++ mjoin l). unfold backend_trace at 1.
    destruct (SegmentationModel_segment model (isel_channels x sel) kwargs)
      as [[y|e] cs] eqn:Ex; simpl; [|done].
    destruct (segment_each model sel kwargs rest) as [[ys|e] cs'] eqn:Er;
      simpl; [|done].
    intros [= <-]. destruct (IH ys eq_refl) as [Hall Htr]. simpl in Htr.
    split; [|by rewrite Htr]. constructor; [by rewrite Ex|done].
Qed.

Lemma segment_each_all_ok `{L : Libraries} `{C : Container}
    (model : SegmentationModel) (sel : ChannelSel) (kwargs : Kwargs)
    (crops : list Crop) (labelled : list Labels) :
  Forall2 (λ x y, (SegmentationModel_segment model (isel_channels x sel) kwargs).1 = Ok y)
          crops labelled →
  (segment_each model sel kwargs crops).1 = Ok labelled.
Proof.
  induction 1 as [|x y rest ys Hy _ IH]; [done|].
  rewrite segment_each_cons.
  destruct (SegmentationModel_segment model (isel_channels x sel) kwargs)
    as [[y'|e] cs]; simpl in Hy; [|done]. inversion Hy; subst y'.
  destruct (segment_each model sel kwargs rest) as [[ys'|e] cs']; simpl in IH;
    [|done]. by inversion IH.
Qed.

(** X7. The comprehension of line 244 returns label arrays exactly when the
    backend returns on every crop, and then there is one label array per
    crop, in the order of the crops, each the backend's answer on its crop;
    the external calls made are those of the crops, in order. *)
Theorem segment_each_one_per_crop `{L : Libraries} `{C : Container}
    (model : SegmentationModel) (sel : ChannelSel) (kwargs : Kwargs)
    (crops : list Crop) (labelled : list Labels) :
  (segment_each model sel kwargs crops).1 = Ok labelled ↔
  Forall2 (λ x y, (SegmentationModel_segment model (isel_channels x sel) kwargs).1 = Ok y)
          crops labelled
  ∧ (segment_each model sel kwargs crops).2
    = mjoin (backend_trace model sel kwargs <$> crops).
Proof.
  split; [apply segment_each_ok|]. intros [Hall _]. by apply segment_each_all_ok.
Qed.

(** X8. The comprehension stops at the first crop on which the backend
    raises: when the backend returns on the crops before crop [k] and raises
    on crop [k], the exception raised is that one, and the external calls
    made are those of the crops up to and including crop [k]; the backend is
    not run on the crops after it. *)
Theorem segment_each_stops_at_first_failure `{L : Libraries} `{C : Container}
    (model : SegmentationModel) (sel : ChannelSel) (kwargs : Kwargs)
    (crops : list Crop) (k : nat) (x : Crop) (e : exn) :
  crops !! k = Some x →
  (SegmentationModel_segment model (isel_channels x sel) kwargs).1 = Raise e →
  (∀ j y, (j < k)%nat → crops !! j = Some y →
     ∃ l, (SegmentationModel_segment model (isel_channels y sel) kwargs).1 = Ok l) →
  segment_each model sel kwargs crops
  = (Raise e, mjoin (backend_trace model sel kwargs <$> take (S k) crops)).
Proof.
  revert k. induction crops as [|z rest IH]; intros k Hk He Hbefore; [done|].
  rewrite segment_each_cons, firstn_cons, fmap_cons.
  change (mjoin (?a :: ?l)) with (a ++ mjoin l). unfold backend_trace at 1.
  destruct k as [|k]; simpl in Hk.
  - inversion Hk; subst z.
    destruct (SegmentationModel_segment model (isel_channels x sel) kwargs)
      as [[l|e0] cs]; simpl in He; [done|]. inversion He; subst e0.
    simpl. by rewrite app_nil_r.
  - destruct (Hbefore 0%nat z ltac:(lia) eq_refl) as (l & Hl).
    destruct (SegmentationModel_segment model (isel_channels z sel) kwargs)
      as [[l'|e0] cs]; simpl in Hl; [|done].
    rewrite (IH k Hk He). { done. }
    intros j y Hj Hy. apply (Hbefore (S j) y); [lia|done].
Qed.

Lemma segment_each_stops_at_first_failure_witness :
  segment_each (L := picky_libraries) (C := toy_container)
    (SegmentationModelPretrainedTensorflow (L := picky_libraries) (ModelObject tt)) (ChannelIndex 0) ∅
    [(0, 0, [[1%Q]]); (0, 1, []); (0, 2, [[0%Q]])]
  = (Raise (External "empty input"), [call_model; call_model]).
Proof.
  apply (segment_each_stops_at_first_failure
           (L := picky_libraries) (C := toy_container)
           (SegmentationModelPretrainedTensorflow (L := picky_libraries) (ModelObject tt)) (ChannelIndex 0) ∅
           [(0, 0, [[1%Q]]); (0, 1, []); (0, 2, [[0%Q]])] 1%nat (0, 1, [])
           (External "empty input")).
  - reflexivity.
  - reflexivity.
  - intros j y Hj Hy. assert (j = 0%nat) as -> by lia.
    inversion Hy; subst y. by eexists.
Defined.

(** X9. The model backend calls the model once per crop and nothing else:
    when the comprehension returns, its external calls are one model call for
    every crop. *)
Theorem tensorflow_called_once_per_crop `{L : Libraries} `{C : Container}
    (model : ModelRef Model) (sel : ChannelSel) (kwargs : Kwargs)
    (crops : list Crop) (labelled : list Labels) :
  (segment_each (SegmentationModelPretrainedTensorflow model) sel kwargs crops).1
    = Ok labelled →
  (segment_each (SegmentationModelPretrainedTensorflow model) sel kwargs crops).2
    = replicate (length crops) call_model
  ∧ length labelled = length crops
  ∧ ∀ i x, crops !! i = Some x →
      ∃ y, labelled !! i = Some y
           ∧ apply_model model (isel_channels x sel) kwargs = Ok y.
Proof.
  intros Hok. destruct (segment_each_ok _ _ _ _ _ Hok) as [Hall Htr].
  split; [|split].
  - rewrite Htr. clear. induction crops as [|x rest IH]; [done|].
    rewrite fmap_cons. change (mjoin (?a :: ?l)) with (a ++ mjoin l).
    by rewrite IH.
  - symmetry. by eapply Forall2_length.
  - intros i x Hx.
    destruct (Forall2_lookup_l _ _ _ _ _ Hall Hx) as (y & Hy & Hrun).
    exists y. split; [done|]. exact Hrun.
Qed.

Lemma tensorflow_called_once_per_crop_witness :
  (segment_each (L := toy_libraries) (C := toy_container)
     (SegmentationModelPretrainedTensorflow (L := toy_libraries) (ModelObject tt))
     (ChannelIndex 0) ∅ [(0, 0, [[1%Q]]); (0, 1, [[0%Q]])]).2
  = replicate 2 call_model.
Proof.
  exact (proj1 (tensorflow_called_once_per_crop
    (L := toy_libraries) (C := toy_container) (ModelObject tt) (ChannelIndex 0) ∅
    [(0, 0, [[1%Q]]); (0, 1, [[0%Q]])]
    [mkLabels int32 2 [[1]]; mkLabels int32 2 [[0]]] eq_refl)).
Defined.

Lemma segment_each_one_per_crop_witness :
  Forall2 (λ x y, (SegmentationModel_segment (L := toy_libraries)
                     (SegmentationModelWatershed NoModel)
                     (isel_channels (Container := toy_container) x (ChannelIndex 0)) ∅).1
                  = Ok y)
          [(0, 0, [[1%Q; 0%Q]]); (0, 1, [[0%Q]])]
          [mkLabels int32 2 [[0; 1]]; mkLabels int32 2 [[1]]].
Proof.
  exact (proj1 (proj1 (segment_each_one_per_crop
    (L := toy_libraries) (C := toy_container)
    (SegmentationModelWatershed NoModel) (ChannelIndex 0) ∅
    [(0, 0, [[1%Q; 0%Q]]); (0, 1, [[0%Q]])]
    [mkLabels int32 2 [[0; 1]]; mkLabels int32 2 [[1]]]) eq_refl)).
Defined.

(** ** Early failures of [segment] *)

(** X10. With the model backend selected, [segment] stops in the
    constructor whenever the check of line 162 does not come out true: the
    only external call is the check, no crop is read, the model is never
    called and the container is as it was. The check raises where the class
    it names cannot be looked up, as in TensorFlow, which has no
    [tf.keras.model]; [segment] then raises the exception of the check. Where
    the check returns false, [segment] raises the [AssertionError]. *)
Theorem segment_rejects_model_at_construction
    `{L : Libraries} `{C : Container} `{B : BackendDecl} `{P : promotion}
    (img_id : string) (model_group : Selector) (model_instance : ModelRef Model)
    (model_kwargs : Kwargs) (channel_idx xs ys : option Z)
    (key_added : option string) (img : ImageContainer) :
  SegmentationBackend_call model_group = Ok TENSORFLOW →
  isinstance_keras_model model_instance ≠ Ok true →
  ∃ e,
    segment img_id model_group model_instance model_kwargs channel_idx
            xs ys key_added img
    = ((Raise e, [call_isinstance]), img)
    ∧ match isinstance_keras_model model_instance with
      | Raise e' => e = e'
      | Ok _ =>
          e = AssertionError "Model should be a `tensorflow.keras.model` instance."
      end.
Proof.
  intros Hm Hcheck.
  unfold segment, mbind, prog_bind, pure_step, lift, make_model.
  rewrite Hm. unfold SegmentationModelPretrainedTensorflow_init.
  destruct (isinstance_keras_model model_instance) as [[|]|e]; [done| |];
    eexists; (split; [done|]); done.
Qed.

Lemma segment_rejects_model_at_construction_witness :
  ∃ e,
    segment (L := keras_libraries) (C := toy_container) (B := three_variants)
      (P := legacy)
      "image" (ByValue "tensorflow") (ModelObject tt) ∅ None None None None
      {["image" := [[0; 1]]]}
    = ((Raise e, [call_isinstance]), {["image" := [[0; 1]]]})
    ∧ e = External "AttributeError".
Proof.
  apply (segment_rejects_model_at_construction
           (L := keras_libraries) (C := toy_container) (B := three_variants)
           (P := legacy)
           "image" (ByValue "tensorflow") (ModelObject tt) ∅ None None None None
           {["image" := [[0; 1]]]}).
  - reflexivity.
  - discriminate.
Defined.

(** X11. When the tiling returns no crop and no channel index is given,
    [crops[0]] of line 243 raises [IndexError]: no backend is run, nothing is
    stitched or added, and the container is as it was. With a channel index
    the same empty tiling goes on to the stitcher with an empty list of
    crops. *)
Theorem segment_empty_tiling
    `{L : Libraries} `{C : Container} `{B : BackendDecl} `{P : promotion}
    (img_id : string) (model_group : Selector) (model_instance : ModelRef Model)
    (model_kwargs : Kwargs) (xs ys : option Z) (key_added : option string)
    (img : ImageContainer) (m : SegmentationBackend) (model : SegmentationModel)
    (cs0 : list Call) (xcoord ycoord : list Z) :
  SegmentationBackend_call model_group = Ok m →
  make_model m model_instance = (Ok model, cs0) →
  crop_equally img xs ys img_id = Ok ([], xcoord, ycoord) →
  segment img_id model_group model_instance model_kwargs None xs ys key_added img
  = ((Raise (IndexError "list index out of range"), cs0 ++ [call_crop_equally]), img)
  ∧ ∀ idx e,
      uncrop_img [] xcoord ycoord (reverse (shape img)) "mask" = Raise e →
      segment img_id model_group model_instance model_kwargs (Some idx)
              xs ys key_added img
      = ((Raise e, cs0 ++ [call_crop_equally; call_uncrop_img]), img).
Proof.
  intros Hm Hmodel Hcrops. split.
  - unfold segment, mbind, prog_bind, pure_step, read_img, lift.
    rewrite Hm, Hmodel, Hcrops. done.
  - intros idx e Hun.
    unfold segment, mbind, prog_bind, pure_step, read_img, lift.
    rewrite Hm, Hmodel, Hcrops. simpl. by rewrite Hun.
Qed.

Lemma segment_empty_tiling_witness :
  segment (L := toy_libraries) (C := blank_container) (B := three_variants)
    (P := legacy)
    "image" (ByValue "watershed") NoModel ∅ None None None None
    {["image" := [[0; 1]]]}
  = ((Raise (IndexError "list index out of range"), [call_crop_equally]),
     {["image" := [[0; 1]]]}).
Proof.
  exact (proj1 (segment_empty_tiling
    (L := toy_libraries) (C := blank_container) (B := three_variants)
    (P := legacy)
    "image" (ByValue "watershed") NoModel ∅ None None None
    {["image" := [[0; 1]]]} WATERSHED (SegmentationModelWatershed NoModel) [] [] []
    eq_refl eq_refl eq_refl)).
Defined.

(** ** The blob backend on the recognised names *)

(** X12. The blob backend makes at most one external call and the call is
    decided by the model reference alone: [blob_log] for the name [log],
    [blob_dog] for [dog], [blob_doh] for [doh], each on the negated image
    when [invert] is set and on the image as it is otherwise, with the
    routine's result or exception handed back; any other reference (another
    name, no model, a model object) gives the [ValueError] and no call. *)
Theorem blob_calls_one_routine `{L : Libraries}
    (model : ModelRef Model) (img : ndarray Q) (invert : bool) (kwargs : Kwargs) :
  let img' := if invert then elementwise (λ v, 0 - v)%Q img else img in
  let r := SegmentationModelBlob_segment model img invert kwargs in
  (model = ModelName "log" ∧ r = (blob_log img' kwargs, [call_blob_log]))
  ∨ (model = ModelName "dog" ∧ r = (blob_dog img' kwargs, [call_blob_dog]))
  ∨ (model = ModelName "doh" ∧ r = (blob_doh img' kwargs, [call_blob_doh]))
  ∨ (model ≠ ModelName "log" ∧ model ≠ ModelName "dog" ∧ model ≠ ModelName "doh"
     ∧ r = (Raise (ValueError ("did not recognize self.model " +:+ model_str model)), [])).
Proof.
  intros img' r. unfold r, SegmentationModelBlob_segment. fold img'.
  destruct model as [|n|m]; simpl.
  - do 3 right. done.
  - destruct (String.eqb_spec n "log") as [->|Hlog]; [by left|].
    destruct (String.eqb_spec n "dog") as [->|Hdog]; [by right; left|].
    destruct (String.eqb_spec n "doh") as [->|Hdoh]; [by do 2 right; left|].
    do 3 right. repeat split; congruence.
  - do 3 right. done.
Qed.

(** ** The watershed backend: order of the calls, the two settings of [geq] *)

(** X13. The watershed backend calls its routines in one fixed order
    (distance transform, local maxima, labelling, inversion, region growing)
    and stops at the first that raises: its calls are a non-empty initial
    part of that order, all five when it returns, and when it raises after
    fewer than five the region growing was not called. *)
Theorem watershed_call_order `{L : Libraries}
    (arr : ndarray Q) (thresh : Q) (geq : bool) :
  let r := SegmentationModelWatershed_segment arr thresh geq in
  ∃ n, (1 ≤ n ≤ 5)%nat ∧ r.2 = take n watershed_order ∧
       (∀ out, r.1 = Ok out → n = 5%nat) ∧
       ((n < 5)%nat → ∃ e, r.1 = Raise e ∧ call_watershed ∉ r.2).
Proof.
  intros r. unfold r, SegmentationModelWatershed_segment. simpl.
  rewrite one_minus_mask.
  destruct (distance_transform_edt _) as [distance|e1]; simpl.
  2: { exists 1%nat. split; [lia|]. split; [done|]. split; [done|].
       intros _. exists e1. split; [done|].
       intros Hin. repeat (apply elem_of_cons in Hin as [?|Hin]; [done|]).
       by apply elem_of_nil in Hin. }
  destruct (peak_local_max _ _ _) as [local_maxi|e2]; simpl.
  2: { exists 2%nat. split; [lia|]. split; [done|]. split; [done|].
       intros _. exists e2. split; [done|].
       intros Hin. repeat (apply elem_of_cons in Hin as [?|Hin]; [done|]).
       by apply elem_of_nil in Hin. }
  destruct (ndi_label _) as [labelled|e3]; simpl.
  2: { exists 3%nat. split; [lia|]. split; [done|]. split; [done|].
       intros _. exists e3. split; [done|].
       intros Hin. repeat (apply elem_of_cons in Hin as [?|Hin]; [done|]).
       by apply elem_of_nil in Hin. }
  destruct (invert _) as [inverted|e4]; simpl.
  2: { exists 4%nat. split; [lia|]. split; [done|]. split; [done|].
       intros _. exists e4. split; [done|].
       intros Hin. repeat (apply elem_of_cons in Hin as [?|Hin]; [done|]).
       by apply elem_of_nil in Hin. }
  exists 5%nat. split; [lia|]. split; [done|]. split; [done|]. lia.
Qed.




(** ** [segment_crops]: the missing layer, the place of the centres *)

(** X16. [segment_crops] fails only when the label layer is missing, with
    the [KeyError] of the lookup; on a stored layer it always returns, one
    crop per entry of the sorted nonzero labels ([int()] never meets the
    [nan] of an empty mean). *)
Theorem segment_crops_fails_on_missing_layer_only `{C : Container}
    (img : ImageContainer) (img_id segmented_img_id : string) (xs ys : option Z) :
  match data img !! segmented_img_id with
  | Some layer =>
      ∃ crops, segment_crops img img_id segmented_img_id xs ys = Ok crops
               ∧ length crops = length (segment_ids layer)
  | None =>
      segment_crops img img_id segmented_img_id xs ys
      = Raise (KeyError segmented_img_id)
  end.
Proof.
  destruct (data img !! segmented_img_id) as [layer|] eqn:Hlayer.
  - destruct (segment_crops_run img img_id segmented_img_id xs ys layer Hlayer)
      as (crops & Hcrops & Hall).
    exists crops. split; [done|]. symmetry. by eapply Forall2_length.
  - unfold segment_crops. by rewrite Hlayer.
Qed.





(** ** Reconciliation seen by [segment_crops] *)







(** ** The order of the external calls of [segment] *)

Lemma make_model_isinstance `{L : Libraries} `{B : BackendDecl}
    (m : SegmentationBackend) (model_instance : ModelRef Model) :
  (make_model m model_instance).2 = []
  ∨ (make_model m model_instance).2 = [call_isinstance].
Proof.
  destruct m; simpl; try by left.
  unfold SegmentationModelPretrainedTensorflow_init. simpl.
  destruct (isinstance_keras_model model_instance) as [[|]|]; by right.
Qed.

(** X19. Whatever its inputs and however it ends, [segment] reads the tiling
    at most once, before every backend call; the stitcher is called at most
    once, after all backend calls; and [add_img] is called at most once, as
    the very last call and only after the stitcher. Before the tiling there
    is at most the constructor's [isinstance] check. A run that returns has
    made the whole sequence. *)
Theorem segment_call_order
    `{L : Libraries} `{C : Container} `{B : BackendDecl} `{P : promotion}
    (img_id : string) (model_group : Selector) (model_instance : ModelRef Model)
    (model_kwargs : Kwargs) (channel_idx xs ys : option Z)
    (key_added : option string) (img img' : ImageContainer)
    (r : result ()) (cs : list Call) :
  segment img_id model_group model_instance model_kwargs channel_idx
          xs ys key_added img = ((r, cs), img') →
  ∃ opening backend closing,
    (opening = [] ∨ opening = [call_isinstance])
    ∧ Forall backend_call backend
    ∧ (closing = [] ∨ closing = [call_uncrop_img]
       ∨ closing = [call_uncrop_img; call_add_img])
    ∧ (cs = opening ∨ cs = opening ++ call_crop_equally :: backend ++ closing)
    ∧ (r = Ok () →
       cs = opening ++ call_crop_equally :: backend ++ [call_uncrop_img; call_add_img]).
Proof.
  intros Hseg.
  unfold segment, mbind, prog_bind, pure_step, read_img, write_img, lift in Hseg.
  destruct (SegmentationBackend_call model_group) as [m|e0] eqn:Em.
  2: { injection Hseg as Hr Hcs Himg. exists [], [], []. rewrite <- Hr, <- Hcs.
       split; [by left|]. split; [done|]. split; [by left|]. split; [by left|done]. }
  pose proof (make_model_isinstance m model_instance) as Hopen.
  destruct (make_model m model_instance) as [[model|e1] cs0] eqn:E0; simpl in Hopen.
  2: { injection Hseg as Hr Hcs Himg. exists cs0, [], []. rewrite <- Hr, <- Hcs.
       split; [done|]. split; [done|]. split; [by left|]. split; [by left|done]. }
  destruct (crop_equally img xs ys img_id) as [[[crops xc] yc]|e2] eqn:Ec;
    simpl in Hseg.
  2: { injection Hseg as Hr Hcs Himg. exists cs0, [], []. rewrite <- Hr, <- Hcs.
       split; [done|]. split; [done|]. split; [by left|]. split; [by right|done]. }
  pose proof (channel_slice_of_calls channel_idx crops) as Hcs1.
  destruct (channel_slice_of channel_idx crops) as [[sel|e3] cs1] eqn:E1;
    simpl in Hcs1; subst cs1.
  2: { injection Hseg as Hr Hcs Himg. exists cs0, [], []. rewrite <- Hr, <- Hcs.
       split; [done|]. split; [done|]. split; [by left|]. split; [by right|done]. }
  pose proof (segment_each_calls model sel model_kwargs crops) as Hcs2.
  destruct (segment_each model sel model_kwargs crops) as [[labelled|e4] cs2] eqn:E2;
    simpl in Hcs2.
  2: { injection Hseg as Hr Hcs Himg. exists cs0, cs2, []. rewrite <- Hr, <- Hcs.
       split; [done|]. split; [done|]. split; [by left|].
       split; [right; by rewrite !app_nil_r|done]. }
  destruct (reconcile labelled) as [[out final]|e5] eqn:E3.
  2: { injection Hseg as Hr Hcs Himg. exists cs0, cs2, []. rewrite <- Hr, <- Hcs.
       split; [done|]. split; [done|]. split; [by left|].
       split; [right; by rewrite !app_nil_r|done]. }
  destruct (uncrop_img out xc yc (reverse (shape img)) "mask")
    as [stitched|e6] eqn:E4; simpl in Hseg.
  2: { injection Hseg as Hr Hcs Himg. exists cs0, cs2, [call_uncrop_img].
       rewrite <- Hr, <- Hcs.
       split; [done|]. split; [done|]. split; [by right; left|].
       split; [by right|done]. }
  exists cs0, cs2, [call_uncrop_img; call_add_img].
  split; [done|]. split; [done|]. split; [by do 2 right|].
  destruct (add_img img stitched _ "mask") as [img1|e7];
    simpl in Hseg; injection Hseg as Hr Hcs Himg; rewrite <- Hcs;
    (split; [by right|done]).
Qed.

Lemma segment_call_order_witness :
  ∃ opening backend,
    [call_crop_equally; call_distance_transform_edt; call_peak_local_max;
     call_ndi_label; call_invert; call_watershed; call_uncrop_img; call_add_img]
    = opening ++ call_crop_equally :: backend ++ [call_uncrop_img; call_add_img]
    ∧ Forall backend_call backend.
Proof.
  destruct (segment_call_order (L := toy_libraries) (C := toy_container)
              (B := three_variants)
    (P := legacy)
              "image" (ByValue "watershed") NoModel ∅ None None None None
              {["image" := [[0; 1]]]}
              (<["segmented_watershed" := [[1; 0]]]> {["image" := [[0; 1]]]})
              (Ok ())
              [call_crop_equally; call_distance_transform_edt; call_peak_local_max;
               call_ndi_label; call_invert; call_watershed;
               call_uncrop_img; call_add_img]
              ltac:(by vm_compute))
    as (opening & backend & closing & _ & Hb & _ & _ & Hok).
  exists opening, backend. split; [by apply Hok|exact Hb].
Defined.
